(** * CustomMainMenu: menu music session and parallax scrolling

    A shallow embedding of the CustomMainMenu plugin: the parsing of its
    parameters, the three scene hooks that save, replace and restore the
    background music, and the per-frame parallax scroll of the menu
    background.

    JavaScript numbers are IEEE 754 binary64 values; they are represented
    by [spec_float] with the operations of [SpecFloat] instantiated at
    precision 53 and maximal exponent 1024. *)

From Stdlib Require Import ZArith Bool List Lia Ascii String.
From Stdlib Require Import Floats.SpecFloat.
From stdpp Require Import base option strings gmap.
Import ListNotations.

Local Open Scope Z_scope.

(** ** JavaScript values used by the plugin *)

Module JS.

(** The Number type. *)
Definition number : Type := spec_float.

Definition prec : Z := 53.
Definition emax : Z := 1024.

Definition NaN : number := S754_nan.
Definition Infinity : number := S754_infinity false.

(** [x + y], [x * y] and [x === y] on numbers. *)
Definition add (x y : number) : number := SFadd prec emax x y.
Definition mul (x y : number) : number := SFmul prec emax x y.
Definition strict_eq (x y : number) : bool := SFeqb x y.

(** The Number whose value is the integer [z], rounded to nearest, ties
    to even (exact as long as [z] fits the 53 bits of the mantissa). *)
Definition of_Z (z : Z) : number := binary_normalize prec emax z 0 false.

(** The Number nearest to [p / q] for positive [p] and [q], with sign
    [s]: the quotient is computed with its rounding location and then
    rounded once. *)
Definition of_ratio (s : bool) (p q : positive) : number :=
  let '(m, e, l) := SFdiv_core_binary prec emax (Zpos p) 0 (Zpos q) 0 in
  binary_round_aux prec emax s m e l.

(** The Number whose value is [m * 10^k], with sign [s]. *)
Definition of_decimal (s : bool) (m : Z) (k : Z) : number :=
  match m with
  | Zpos p =>
      if 0 <=? k
      then binary_normalize prec emax (cond_Zopp s (Zpos p * 10 ^ k)) 0 false
      else of_ratio s p (Z.to_pos (10 ^ (- k)))
  | _ => S754_zero s
  end.

(** ToBoolean on numbers: [+0], [-0] and [NaN] are falsy. *)
Definition truthy (x : number) : bool :=
  match x with
  | S754_zero _ | S754_nan => false
  | _ => true
  end.

Definition is_zero (x : number) : bool :=
  match x with
  | S754_zero _ => true
  | _ => false
  end.

Definition is_nan (x : number) : bool :=
  match x with
  | S754_nan => true
  | _ => false
  end.

(** ToBoolean on strings: only the empty string is falsy. *)
Definition truthy_string (s : string) : bool :=
  match s with
  | EmptyString => false
  | String _ _ => true
  end.

(** [x || d] where [x] is a number. *)
Definition or_number (x d : number) : number :=
  if truthy x then x else d.

(** [v || d] where [v] is a string or [undefined]. *)
Definition or_string (v : option string) (d : string) : string :=
  match v with
  | Some s => if truthy_string s then s else d
  | None => d
  end.

(** *** [Number(string)]: the StringNumericLiteral grammar

    White space is trimmed on both sides; the empty string is [+0]; a
    literal is [Infinity] or a decimal literal with an optional sign,
    or an unsigned binary, octal or hexadecimal integer; anything else
    is [NaN].  White space is restricted here to the ASCII white space
    and line terminator characters. *)

Definition code (c : ascii) : Z := Z.of_N (Ascii.N_of_ascii c).

Definition is_space (c : ascii) : bool :=
  let n := code c in
  ((9 <=? n) && (n <=? 13)) || (n =? 32).

Fixpoint trim_left (s : string) : string :=
  match s with
  | String c r => if is_space c then trim_left r else s
  | EmptyString => s
  end.

Fixpoint trim_right (s : string) : string :=
  match s with
  | String c r =>
      match trim_right r with
      | EmptyString => if is_space c then EmptyString else String c EmptyString
      | r' => String c r'
      end
  | EmptyString => EmptyString
  end.

(** The value of a digit in the given radix. *)
Definition digit (radix : Z) (c : ascii) : option Z :=
  let n := code c in
  let v :=
    if (48 <=? n) && (n <=? 57) then n - 48
    else if (97 <=? n) && (n <=? 102) then n - 87
    else if (65 <=? n) && (n <=? 70) then n - 55
    else radix in
  if v <? radix then Some v else None.

(** Reads the longest run of digits: the accumulated value, the number
    of digits read, and the rest of the string. *)
Fixpoint digits (radix : Z) (s : string) (acc : Z) (len : Z) : Z * Z * string :=
  match s with
  | String c r =>
      match digit radix c with
      | Some v => digits radix r (acc * radix + v) (len + 1)
      | None => (acc, len, s)
      end
  | EmptyString => (acc, len, s)
  end.

Definition sign (s : string) : bool * string :=
  match s with
  | String "+" r => (false, r)
  | String "-" r => (true, r)
  | _ => (false, s)
  end.

(** An unsigned integer in radix 2, 8 or 16, the prefix already read. *)
Definition non_decimal (radix : Z) (s : string) : number :=
  match digits radix s 0 0 with
  | (v, len, EmptyString) => if 0 <? len then of_Z v else NaN
  | _ => NaN
  end.

(** The exponent part: [e] or [E], an optional sign and at least one
    digit, up to the end of the string; no exponent part is exponent 0. *)
Definition exponent (s : string) : option Z :=
  match s with
  | EmptyString => Some 0
  | String c r =>
      if (code c =? 101) || (code c =? 69) then
        let '(neg, r') := sign r in
        match digits 10 r' 0 0 with
        | (v, len, EmptyString) =>
            if 0 <? len then Some (cond_Zopp neg v) else None
        | _ => None
        end
      else None
  end.

(** An unsigned decimal literal with sign [neg]. *)
Definition decimal (neg : bool) (s : string) : number :=
  let '(int, ilen, r) := digits 10 s 0 0 in
  let '(mant, flen, r') :=
    match r with
    | String "." f => digits 10 f int 0
    | _ => (int, 0, r)
    end in
  if 0 <? ilen + flen then
    match exponent r' with
    | Some e => of_decimal neg mant (e - flen)
    | None => NaN
    end
  else NaN.

Definition StringToNumber (str : string) : number :=
  let s := trim_right (trim_left str) in
  match s with
  | EmptyString => S754_zero false
  | String "0" (String "x" r) | String "0" (String "X" r) => non_decimal 16 r
  | String "0" (String "o" r) | String "0" (String "O" r) => non_decimal 8 r
  | String "0" (String "b" r) | String "0" (String "B" r) => non_decimal 2 r
  | _ =>
      let '(neg, r) := sign s in
      if String.eqb r "Infinity" then S754_infinity neg else decimal neg r
  end.

(** [Number(v)] where [v] is a string or [undefined]. *)
Definition Number (v : option string) : number :=
  match v with
  | Some s => StringToNumber s
  | None => NaN
  end.

(** ** Further operations on numbers *)

(** [x - y], [x / y] and [x < y]. *)
Definition sub (x y : number) : number := SFsub prec emax x y.
Definition div (x y : number) : number := SFdiv prec emax x y.
Definition lt (x y : number) : bool := SFltb x y.

(** [x % y]: the remainder of the truncating division; it is computed
    exactly and has the sign of the dividend. *)
Definition rem (x y : number) : number :=
  match x, y with
  | S754_nan, _ | _, S754_nan => NaN
  | S754_infinity _, _ => NaN
  | _, S754_zero _ => NaN
  | _, S754_infinity _ => x
  | S754_zero _, _ => x
  | S754_finite sx mx ex, S754_finite _ my ey =>
      let e := Z.min ex ey in
      let r := Z.rem (Zpos (fst (shl_align mx ex e))) (Zpos (fst (shl_align my ey e))) in
      binary_normalize prec emax (cond_Zopp sx r) e sx
  end.

(** [Math.floor(x)]: a number with a nonnegative exponent is an integer
    already; otherwise the mantissa is shifted down, towards minus
    infinity. *)
Definition floor (x : number) : number :=
  match x with
  | S754_finite s m e =>
      if 0 <=? e then x
      else binary_normalize prec emax (Z.shiftr (cond_Zopp s (Zpos m)) (- e)) 0 s
  | _ => x
  end.

(** [v || d] where [v] is a number or [undefined]. *)
Definition or_undefined (v : option number) (d : number) : number :=
  match v with
  | Some x => or_number x d
  | None => d
  end.

End JS.

(** ** The engine: scenes and the audio device *)

Module Engine.

(** The scene classes of the engine.  The menu family derives from
    [Scene_MenuBase]; [Scene_Title], [Scene_Map] and [Scene_Battle] do
    not. *)
Inductive SceneClass : Type :=
| Scene_Title | Scene_Map | Scene_Battle
| Scene_Menu | Scene_Item | Scene_Skill | Scene_Equip | Scene_Status
| Scene_Options | Scene_Save | Scene_GameEnd.

Definition extends_Scene_MenuBase (c : SceneClass) : bool :=
  match c with
  | Scene_Title | Scene_Map | Scene_Battle => false
  | _ => true
  end.

(** [v instanceof Scene_MenuBase] and [v instanceof Scene_Map], where
    [v] is a scene or [null]. *)
Definition instanceof_Scene_MenuBase (v : option SceneClass) : bool :=
  match v with
  | Some c => extends_Scene_MenuBase c
  | None => false
  end.

Definition instanceof_Scene_Map (v : option SceneClass) : bool :=
  match v with
  | Some Scene_Map => true
  | _ => false
  end.

(** A saved background track: its parameters and playback position. *)
Record Bgm : Type := {
  name : string;
  volume : JS.number;
  pitch : JS.number;
  pan : JS.number;
  pos : JS.number
}.

(** The calls the plugin makes on [AudioManager]. *)
Inductive AudioCall : Type :=
| SaveBgm
| StopBgm
| PlayBgm (name : string) (volume pitch pan : JS.number)
| ReplayBgm (bgm : Bgm).

(** What an observer of the game sees: audio calls, and scenes
    becoming the active scene. *)
Inductive Event : Type :=
| Audio (c : AudioCall)
| Activated (s : SceneClass).

(** The calls that change what is played: [saveBgm] only reads. *)
Definition is_command (e : Event) : bool :=
  match e with
  | Audio SaveBgm => false
  | Audio _ => true
  | Activated _ => false
  end.

Definition commands (t : list Event) : list Event := List.filter is_command t.

End Engine.

Import Engine.

(** ** The plugin *)

Module CustomMainMenu.

(** The game as the plugin sees it: the scene and the track the engine
    holds, the plugin's two variables, and the events so far. *)
Record State : Type := {
  _scene : SceneClass;            (* SceneManager._scene *)
  _currentBgm : option Bgm;       (* the track the audio device plays *)
  _currentMapBgm : option Bgm;    (* let _currentMapBgm = null *)
  _menuMusicActive : bool;        (* let _menuMusicActive = false *)
  trace : list Event
}.

Definition initial (scene : SceneClass) (bgm : option Bgm) : State :=
  {| _scene := scene; _currentBgm := bgm;
     _currentMapBgm := None; _menuMusicActive := false; trace := [] |}.

Definition log (e : Event) (st : State) : State :=
  {| _scene := _scene st; _currentBgm := _currentBgm st;
     _currentMapBgm := _currentMapBgm st;
     _menuMusicActive := _menuMusicActive st;
     trace := trace st ++ [e] |}.

Definition set_scene (c : SceneClass) (st : State) : State :=
  {| _scene := c; _currentBgm := _currentBgm st;
     _currentMapBgm := _currentMapBgm st;
     _menuMusicActive := _menuMusicActive st;
     trace := trace st |}.

Definition set_currentBgm (b : option Bgm) (st : State) : State :=
  {| _scene := _scene st; _currentBgm := b;
     _currentMapBgm := _currentMapBgm st;
     _menuMusicActive := _menuMusicActive st;
     trace := trace st |}.

Definition set_currentMapBgm (b : option Bgm) (st : State) : State :=
  {| _scene := _scene st; _currentBgm := _currentBgm st;
     _currentMapBgm := b;
     _menuMusicActive := _menuMusicActive st;
     trace := trace st |}.

Definition set_menuMusicActive (a : bool) (st : State) : State :=
  {| _scene := _scene st; _currentBgm := _currentBgm st;
     _currentMapBgm := _currentMapBgm st;
     _menuMusicActive := a;
     trace := trace st |}.

(** Modelled from the spec: the audio device of the engine
    ([AudioManager]) is not part of the plugin.  It offers
    [captureCurrent() -> Snapshot], absent when nothing is playing,
    [stop()], [play(track, volume, pitch, pan)], which starts the track
    from its beginning, and [resume(snapshot)], which plays the
    snapshot from its saved position. *)
Definition AudioManager_saveBgm (st : State) : option Bgm * State :=
  (_currentBgm st, log (Audio SaveBgm) st).

Definition AudioManager_stopBgm (st : State) : State :=
  log (Audio StopBgm) (set_currentBgm None st).

Definition AudioManager_playBgm
    (name : string) (volume pitch pan : JS.number) (st : State) : State :=
  log (Audio (PlayBgm name volume pitch pan))
    (set_currentBgm
       (Some {| name := name; volume := volume; pitch := pitch; pan := pan;
                pos := JS.of_Z 0 |}) st).

Definition AudioManager_replayBgm (bgm : Bgm) (st : State) : State :=
  log (Audio (ReplayBgm bgm)) (set_currentBgm (Some bgm) st).

(** The background of a menu scene: the engine's plain sprite, or the
    tiling sprite of the plugin with its scroll origin. *)
Record Point : Type := { x : JS.number; y : JS.number }.

Inductive Sprite : Type :=
| PlainSprite
| TilingSprite (origin : Point).

(** The hooks the engine calls, as named in the plugin. *)
Inductive Hook : Type :=
| Map_terminate (next : option SceneClass)
| Menu_start
| MenuBase_terminate (next : option SceneClass).

Section Plugin.

(** [PluginManager.parameters('CustomMainMenu')] *)
Variable parameters : gmap string string.

Definition backgroundImage : string :=
  JS.or_string (parameters !! "backgroundImage") "".
Definition parallaxHorizontalSpeed : JS.number :=
  JS.or_number (JS.Number (parameters !! "parallaxHorizontalSpeed")) (JS.of_Z 1).
Definition parallaxVerticalSpeed : JS.number :=
  JS.or_number (JS.Number (parameters !! "parallaxVerticalSpeed")) (JS.of_Z 0).
Definition menuMusic : string :=
  JS.or_string (parameters !! "menuMusic") "".
Definition musicVolume : JS.number :=
  JS.or_number (JS.Number (parameters !! "musicVolume")) (JS.of_Z 80).
Definition musicPitch : JS.number :=
  JS.or_number (JS.Number (parameters !! "musicPitch")) (JS.of_Z 100).

(** Each hook first calls the method of the engine it wraps; those
    methods use neither the variables of the plugin nor the audio device
    and are left out. *)

(** [Scene_Map.prototype.terminate], where [next] is
    [SceneManager._nextScene]. *)
Definition Scene_Map_terminate (next : option SceneClass) (st : State) : State :=
  if instanceof_Scene_MenuBase next then
    let '(bgm, st) := AudioManager_saveBgm st in
    set_currentMapBgm bgm st
  else st.

(** [Scene_MenuBase.prototype.createBackground]: the sprite stored in
    [_backgroundSprite]. *)
Definition Scene_MenuBase_createBackground : Sprite :=
  if JS.truthy_string backgroundImage
  then TilingSprite {| x := JS.of_Z 0; y := JS.of_Z 0 |}
  else PlainSprite.

(** [Scene_MenuBase.prototype.update], on [_backgroundSprite]. *)
Definition Scene_MenuBase_update (sprite : Sprite) : Sprite :=
  match sprite with
  | TilingSprite origin =>
      TilingSprite
        {| x := JS.add (x origin) parallaxHorizontalSpeed;
           y := JS.add (y origin) parallaxVerticalSpeed |}
  | PlainSprite => PlainSprite
  end.

(** [Scene_Menu.prototype.start] *)
Definition Scene_Menu_start (st : State) : State :=
  if JS.truthy_string menuMusic && negb (_menuMusicActive st) then
    let st := AudioManager_stopBgm st in
    let st := AudioManager_playBgm menuMusic musicVolume musicPitch (JS.of_Z 0) st in
    set_menuMusicActive true st
  else st.

(** [Scene_MenuBase.prototype.terminate] *)
Definition Scene_MenuBase_terminate (next : option SceneClass) (st : State) : State :=
  if _menuMusicActive st && instanceof_Scene_Map next then
    let st := AudioManager_stopBgm st in
    let st :=
      match _currentMapBgm st with
      | Some bgm => AudioManager_replayBgm bgm st
      | None => st
      end in
    set_menuMusicActive false st
  else st.

(** [n] frames of a menu scene. *)
Fixpoint frames (n : nat) (sprite : Sprite) : Sprite :=
  match n with
  | O => sprite
  | S k => Scene_MenuBase_update (frames k sprite)
  end.

(** Hooks called one after the other, in any order. *)
Definition call (h : Hook) (st : State) : State :=
  match h with
  | Map_terminate next => Scene_Map_terminate next st
  | Menu_start => Scene_Menu_start st
  | MenuBase_terminate next => Scene_MenuBase_terminate next st
  end.

Definition calls (hs : list Hook) (st : State) : State :=
  fold_left (fun st h => call h st) hs st.

(** Modelled from the spec: the scene lifecycle of the engine
    ([SceneManager]) is not part of the plugin.  A change of scene
    terminates the current scene, knowing the next one, then makes
    the next scene the active one and starts it.  Every class runs
    the [terminate] and [start] it defines or inherits. *)
Definition terminate (c : SceneClass) (next : option SceneClass) (st : State) : State :=
  match c with
  | Scene_Map => Scene_Map_terminate next st
  | _ => if extends_Scene_MenuBase c then Scene_MenuBase_terminate next st else st
  end.

Definition start (c : SceneClass) (st : State) : State :=
  match c with
  | Scene_Menu => Scene_Menu_start st
  | _ => st
  end.

Definition changeScene (next : SceneClass) (st : State) : State :=
  let st := terminate (_scene st) (Some next) st in
  let st := log (Activated next) (set_scene next st) in
  start next st.

Definition changeScenes (cs : list SceneClass) (st : State) : State :=
  fold_left (fun st c => changeScene c st) cs st.

(** A menu session: from the map through the menu scenes [ms] and
    back to the map. *)
Definition session (ms : list SceneClass) (st : State) : State :=
  changeScenes (ms ++ [Scene_Map]) st.

End Plugin.

End CustomMainMenu.

Import CustomMainMenu.

(** ** The status window: random portraits *)

Module MenuStatus.

(** The arguments of [this.contents.blt(bitmap, sx, sy, sw, sh, dx, dy,
    dw, dh)]: a rectangle of the face sheet and where it is drawn. *)
Record Blt : Type := {
  sx : JS.number; sy : JS.number; sw : JS.number; sh : JS.number;
  dx : JS.number; dy : JS.number; dw : JS.number; dh : JS.number
}.

(** [Math.floor(Math.random() * 8)], where [r] is what [Math.random()]
    returned. *)
Definition randomFaceIndex (r : JS.number) : JS.number :=
  JS.floor (JS.mul r (JS.of_Z 8)).

(** The loop of [randomizeFaceIndices]: [n] entries, the first from the
    call number [calls] of [Math.random()], whose results are [random]. *)
Fixpoint fill (random : nat -> JS.number) (calls n : nat) : list JS.number :=
  match n with
  | O => []
  | S k => randomFaceIndex (random calls) :: fill random (S calls) k
  end.

(** [Window_MenuStatus.prototype.randomizeFaceIndices], where [partySize]
    is [$gameParty.size()]: the new [_randomFaceIndices] and the number of
    calls of [Math.random()] so far. *)
Definition randomizeFaceIndices
    (partySize : nat) (random : nat -> JS.number) (calls : nat)
    : list JS.number * nat :=
  (fill random calls partySize, (calls + partySize)%nat).

Section Faces.

(** [ImageManager.faceWidth] and [ImageManager.faceHeight]. *)
Variables fw fh : JS.number.

(** [Window_MenuStatus.prototype.drawActorFace]: the one drawing call it
    makes. *)
Definition drawActorFace (x y width height faceIndex : JS.number) : Blt :=
  let sx := JS.mul (JS.rem faceIndex (JS.of_Z 4)) fw in
  let sy := JS.mul (JS.floor (JS.div faceIndex (JS.of_Z 4))) fh in
  let width := JS.or_number width fw in
  let height := JS.or_number height fh in
  {| sx := sx; sy := sy; sw := fw; sh := fh;
     dx := x; dy := y; dw := width; dh := height |}.

(** [Window_MenuStatus.prototype.drawItemImage], where [rect_x] and
    [rect_y] are the corner of [this.itemRect(index)]: the face it draws. *)
Definition drawItemImage
    (_randomFaceIndices : list JS.number) (rect_x rect_y : JS.number)
    (index : nat) : Blt :=
  let width := JS.of_Z 104 in
  let height := JS.of_Z 104 in
  let faceIndex :=
    JS.or_undefined (nth_error _randomFaceIndices index) (JS.of_Z 0) in
  drawActorFace (JS.add rect_x (JS.of_Z 4)) (JS.add rect_y (JS.of_Z 4))
    width height faceIndex.

End Faces.

(** The two rectangles [drawGauge] fills: the back of the gauge, of the
    whole width, with [fillRect], and its filled part, [fillW] wide, with
    [gradientFillRect]. *)
Record Gauge : Type := {
  gx : JS.number; gy : JS.number; gwidth : JS.number; gheight : JS.number;
  fillW : JS.number
}.

Section Gauges.

(** [this.lineHeight()] *)
Variable lineHeight : JS.number.

(** [Window_MenuStatus.prototype.drawGauge] *)
Definition drawGauge (x y width rate : JS.number) : Gauge :=
  let gaugeY := JS.sub (JS.add y lineHeight) (JS.of_Z 8) in
  let fillW := JS.floor (JS.mul width rate) in
  let gaugeH := JS.of_Z 6 in
  {| gx := x; gy := gaugeY; gwidth := width; gheight := gaugeH; fillW := fillW |}.

(** The gauge of [Window_MenuStatus.prototype.drawActorHp], [drawActorMp]
    and [drawActorTp], which differ in colours and texts only; [rate] is
    [actor.hpRate()], [actor.mpRate()] or [actor.tpRate()]. *)
Definition drawActorGauge (y width gaugeX rate : JS.number) : Gauge :=
  let width := JS.or_number width (JS.of_Z 100) in
  drawGauge gaugeX y width rate.

(** The gauges of [Window_MenuStatus.prototype.drawItemStatus], where [x]
    and [y] are the corner of [this.itemRect(index)] and [optDisplayTp] is
    [$dataSystem.optDisplayTp]. *)
Definition drawItemStatus
    (x y : JS.number) (hpRate mpRate tpRate : JS.number) (optDisplayTp : bool)
    : list Gauge :=
  let paramX := JS.add x (JS.of_Z 151) in
  let gaugeX := JS.add paramX (JS.of_Z 36) in
  [drawActorGauge (JS.add y (JS.mul lineHeight (JS.of_Z 0))) (JS.of_Z 100) gaugeX hpRate;
   drawActorGauge (JS.add y (JS.mul lineHeight (JS.of_Z 1))) (JS.of_Z 100) gaugeX mpRate]
  ++ (if optDisplayTp
      then [drawActorGauge (JS.add y (JS.mul lineHeight (JS.of_Z 2))) (JS.of_Z 100)
              gaugeX tpRate]
      else []).

End Gauges.

End MenuStatus.

(** ** The main menu: its five windows *)

Module MenuLayout.

(** The geometry of a window. *)
Record Rectangle : Type := {
  x : JS.number; y : JS.number; width : JS.number; height : JS.number
}.

Definition set_x (v : JS.number) (r : Rectangle) : Rectangle :=
  {| x := v; y := y r; width := width r; height := height r |}.
Definition set_y (v : JS.number) (r : Rectangle) : Rectangle :=
  {| x := x r; y := v; width := width r; height := height r |}.
Definition set_width (v : JS.number) (r : Rectangle) : Rectangle :=
  {| x := x r; y := y r; width := v; height := height r |}.
Definition set_height (v : JS.number) (r : Rectangle) : Rectangle :=
  {| x := x r; y := y r; width := width r; height := v |}.

(** The windows of [Scene_Menu]. *)
Record Windows : Type := {
  _commandWindow : Rectangle;
  _goldWindow : Rectangle;
  _statusWindow : Rectangle;
  _playTimeWindow : Rectangle;
  _stepCountWindow : Rectangle
}.

Section Graphics.

(** [Graphics.boxWidth] and [Graphics.boxHeight]. *)
Variables boxWidth boxHeight : JS.number.

(** The rectangle [Scene_Menu.prototype.createPlayTimeWindow] makes the
    window with. *)
Definition createPlayTimeWindow : Rectangle :=
  {| x := JS.of_Z 0;
     y := JS.sub boxHeight (JS.of_Z 72);
     width := JS.floor (JS.div boxWidth (JS.of_Z 3));
     height := JS.of_Z 72 |}.

(** The rectangle [Scene_Menu.prototype.createStepCountWindow] makes the
    window with. *)
Definition createStepCountWindow : Rectangle :=
  {| x := JS.floor (JS.mul (JS.of_Z 2) (JS.div boxWidth (JS.of_Z 3)));
     y := JS.sub boxHeight (JS.of_Z 72);
     width := JS.floor (JS.div boxWidth (JS.of_Z 3));
     height := JS.of_Z 72 |}.

(** [Window_Gold.prototype.initialize]: the rectangle handed on to the
    method of the engine. *)
Definition Window_Gold_initialize (rect : Rectangle) : Rectangle :=
  let rect := set_width (JS.floor (JS.div boxWidth (JS.of_Z 3))) rect in
  let rect := set_height (JS.of_Z 72) rect in
  rect.

(** [Scene_Menu.prototype.create]: the windows are created, the command,
    gold and status windows by the engine with rectangles of its own, and
    then placed. *)
Definition Scene_Menu_create (command gold status : Rectangle) : Windows :=
  let _commandWindow := command in
  let _goldWindow := Window_Gold_initialize gold in
  let _statusWindow := status in
  let _playTimeWindow := createPlayTimeWindow in
  let _stepCountWindow := createStepCountWindow in

  let _commandWindow := set_x (JS.sub boxWidth (JS.of_Z 240)) _commandWindow in
  let _commandWindow := set_y (JS.of_Z 72) _commandWindow in
  let _commandWindow := set_width (JS.of_Z 240) _commandWindow in
  let _commandWindow :=
    set_height (JS.sub (JS.sub boxHeight (JS.of_Z 72)) (JS.of_Z 72)) _commandWindow in

  let _statusWindow := set_x (JS.of_Z 0) _statusWindow in
  let _statusWindow := set_y (JS.of_Z 72) _statusWindow in
  let _statusWindow := set_width (JS.sub boxWidth (JS.of_Z 240)) _statusWindow in
  let _statusWindow :=
    set_height (JS.sub (JS.sub boxHeight (JS.of_Z 72)) (JS.of_Z 72)) _statusWindow in

  let _playTimeWindow := set_x (JS.of_Z 0) _playTimeWindow in
  let _playTimeWindow := set_y (JS.sub boxHeight (JS.of_Z 72)) _playTimeWindow in
  let _playTimeWindow :=
    set_width (JS.floor (JS.div boxWidth (JS.of_Z 3))) _playTimeWindow in
  let _playTimeWindow := set_height (JS.of_Z 72) _playTimeWindow in

  let _goldWindow := set_x (JS.floor (JS.div boxWidth (JS.of_Z 3))) _goldWindow in
  let _goldWindow := set_y (JS.sub boxHeight (JS.of_Z 72)) _goldWindow in
  let _goldWindow :=
    set_width (JS.floor (JS.div boxWidth (JS.of_Z 3))) _goldWindow in
  let _goldWindow := set_height (JS.of_Z 72) _goldWindow in

  let _stepCountWindow :=
    set_x (JS.floor (JS.mul (JS.of_Z 2) (JS.div boxWidth (JS.of_Z 3))))
      _stepCountWindow in
  let _stepCountWindow := set_y (JS.sub boxHeight (JS.of_Z 72)) _stepCountWindow in
  let _stepCountWindow :=
    set_width (JS.floor (JS.div boxWidth (JS.of_Z 3))) _stepCountWindow in
  let _stepCountWindow := set_height (JS.of_Z 72) _stepCountWindow in

  {| _commandWindow := _commandWindow; _goldWindow := _goldWindow;
     _statusWindow := _statusWindow; _playTimeWindow := _playTimeWindow;
     _stepCountWindow := _stepCountWindow |}.

End Graphics.

End MenuLayout.

(** ** Two plugins that patch the movement of the player *)

Module Movement.

Section Engine.

(** The game as the engine holds it, and the methods of the engine the
    two plugins call: [$gameSwitches.value(id)], [this.isMoving()],
    [this.canMove()], [this.getInputDirection()], which only read, and
    [$gameTemp.clearDestination()], [this.executeMove(direction)]. *)
Variable World : Type.
Variable value : JS.number -> World -> bool.
Variables isMoving canMove : World -> bool.
Variable getInputDirection : World -> JS.number.
Variable clearDestination : World -> World.
Variable executeMove : JS.number -> World -> World.

(** The two methods the plugins replace:
    [Game_Player.prototype.moveByInput] and
    [Game_Event.prototype.updateSelfMovement]. *)
Record Prototypes : Type := {
  moveByInput : World -> World;
  updateSelfMovement : World -> World
}.

(** [Number(parameters[key] || -1)] *)
Definition switchId (parameters : gmap string string) (key : string) : JS.number :=
  match parameters !! key with
  | Some s => if JS.truthy_string s then JS.Number (Some s) else JS.of_Z (-1)
  | None => JS.of_Z (-1)
  end.

(** Loading StopMovement.js: each method is wrapped, the previous one
    kept and called. *)
Definition StopMovement (parameters : gmap string string) (p : Prototypes)
    : Prototypes :=
  let PCswitchId := switchId parameters "PC Switch ID" in
  let NPCswitchId := switchId parameters "NPC Switch ID" in
  let _Game_Player_moveByInput := moveByInput p in
  let _Game_Event_updateSelfMovement := updateSelfMovement p in
  {| moveByInput := fun w =>
       if value PCswitchId w then w else _Game_Player_moveByInput w;
     updateSelfMovement := fun w =>
       if value NPCswitchId w then w else _Game_Event_updateSelfMovement w |}.

(** Loading ReverieHouse.js: [moveByInput] is assigned anew, the previous
    one dropped. *)
Definition ReverieHouse (p : Prototypes) : Prototypes :=
  {| moveByInput := fun w =>
       if negb (isMoving w) && canMove w then
         let direction := getInputDirection w in
         if JS.lt (JS.of_Z 0) direction
         then executeMove direction (clearDestination w)
         else w
       else w;
     updateSelfMovement := updateSelfMovement p |}.

End Engine.

End Movement.

(** ** Vocabulary of the proofs *)

(** *** Mantissas and exponents of binary64 *)

Module Binary64.

(** [m * 2^n] on positive mantissas, for [n >= 0]. *)
Definition shl (m : positive) (n : Z) : positive :=
  match n with
  | Zpos p => Pos.iter xO m p
  | _ => m
  end.

(** A shift register whose dropped bits are all zero. *)
Definition exact (m : Z) : shr_record :=
  {| shr_m := m; shr_r := false; shr_s := false |}.

(** A mantissa and exponent in canonical position, within range. *)
Definition canonic (m : positive) (e : Z) : Prop :=
  SpecFloat.fexp JS.prec JS.emax (Zpos (digits2_pos m) + e) = e
  /\ e <= JS.emax - JS.prec.

(** The integers every one of which is a binary64 number. *)
Definition safe (z : Z) : Prop := Z.abs z < 2 ^ 53.

(** The mantissa and exponent of a safe integer [k > 0]. *)
Definition mant (k : positive) : positive := shl k (53 - Zpos (digits2_pos k)).
Definition expo (k : positive) : Z := Zpos (digits2_pos k) - 53.

End Binary64.

Import Binary64.

(** *** Scenarios *)

(** Menu track "Theme1" at volume 80 and pitch 100. *)
Definition theme1 : gmap string string :=
  {[ "menuMusic" := "Theme1"; "musicVolume" := "80"; "musicPitch" := "100" ]}.

(** The map track "Field", 12.5 seconds into the track. *)
Definition field (volume pitch pan : JS.number) : Bgm :=
  {| name := "Field"; volume := volume; pitch := pitch; pan := pan;
     pos := JS.Number (Some "12.5") |}.

(** A background image and a horizontal speed. *)
Definition sky (speed : string) : gmap string string :=
  {[ "backgroundImage" := "Sky"; "parallaxHorizontalSpeed" := speed ]}.

(** Only this parameter is set, to "0". *)
Definition zeroed (key : string) : gmap string string := {[ key := "0" ]}.

(** On the map, the device playing [bgm], nothing saved, no menu music. *)
Definition on_map (bgm : option Bgm) : State := initial Scene_Map bgm.

(** *** Events of a session *)

(** The call that starts the menu track. *)
Definition menu_track (parameters : gmap string string) : Event :=
  Audio (PlayBgm (menuMusic parameters) (musicVolume parameters)
           (musicPitch parameters) (JS.of_Z 0)).

(** The menu track as the device holds it once started. *)
Definition menu_bgm (parameters : gmap string string) : Bgm :=
  {| name := menuMusic parameters; volume := musicVolume parameters;
     pitch := musicPitch parameters; pan := JS.of_Z 0; pos := JS.of_Z 0 |}.

Definition is_Scene_Menu (c : SceneClass) : bool :=
  match c with
  | Scene_Menu => true
  | _ => false
  end.

(** On the way through the scenes [ms], the main menu starts the menu
    track: a track is configured, it was not active, and the main menu is
    among the scenes. *)
Definition starts (parameters : gmap string string)
    (active : bool) (ms : list SceneClass) : bool :=
  negb active && JS.truthy_string (menuMusic parameters)
  && existsb is_Scene_Menu ms.

(** The hook that leaves the menus for the map. *)
Definition is_exit (h : Hook) : bool :=
  match h with
  | MenuBase_terminate next => instanceof_Scene_Map next
  | _ => false
  end.

Definition is_replay (e : Event) : bool :=
  match e with
  | Audio (ReplayBgm _) => true
  | _ => false
  end.

(** What may happen between the capture and the restore: menu scenes
    becoming active, and the stop and play that start the menu track. *)
Definition menu_phase (e : Event) : bool :=
  match e with
  | Activated c => extends_Scene_MenuBase c
  | Audio StopBgm => true
  | Audio (PlayBgm _ _ _ _) => true
  | Audio SaveBgm => false
  | Audio (ReplayBgm _) => false
  end.

(** The calls that restore the map track on the way out. *)
Definition restore (active : bool) (saved : option Bgm) : list Event :=
  if active then
    Audio StopBgm ::
      match saved with
      | Some bgm => [Audio (ReplayBgm bgm)]
      | None => []
      end
  else [].

(** Making the scene [c] the active one and starting it. *)
Definition enter (parameters : gmap string string) (c : SceneClass) (st : State) : State :=
  start parameters c (log (Activated c) (set_scene c st)).

(** *** The scroll origin against the product *)

Definition origin0 : Point := {| x := JS.of_Z 0; y := JS.of_Z 0 |}.

(** After [n] frames from the origin (0, 0): [origin.x === vx * n] and
    [origin.y === vy * n]. *)
Definition origin_is_product (parameters : gmap string string) (n : nat) : bool :=
  match frames parameters n (TilingSprite origin0) with
  | TilingSprite origin =>
      JS.strict_eq (x origin)
        (JS.mul (parallaxHorizontalSpeed parameters) (JS.of_Z (Z.of_nat n)))
      && JS.strict_eq (y origin)
           (JS.mul (parallaxVerticalSpeed parameters) (JS.of_Z (Z.of_nat n)))
  | PlainSprite => false
  end.

(** *** Counting calls *)

Definition is_stop (e : Event) : bool :=
  match e with
  | Audio StopBgm => true
  | _ => false
  end.

Definition is_play (e : Event) : bool :=
  match e with
  | Audio (PlayBgm _ _ _ _) => true
  | _ => false
  end.

Definition count (p : Event -> bool) (t : list Event) : nat :=
  length (List.filter p t).

(** The flag as a number: 1 when the menu music is active. *)
Definition up (st : State) : nat := if _menuMusicActive st then 1%nat else 0%nat.

(** A scene outside the menus other than the map. *)
Definition elsewhere (c : SceneClass) : bool :=
  negb (extends_Scene_MenuBase c) && negb (instanceof_Scene_Map (Some c)).

(** What the hooks keep: every play comes with a stop before it, and with
    one more stop once the flag is down again; a resume belongs to a play
    whose flag is down again. *)
Definition balanced (st : State) : Prop :=
  (count is_stop (trace st) + up st = 2 * count is_play (trace st))%nat
  /\ (count is_replay (trace st) + up st <= count is_play (trace st))%nat.

(** *** Rounding, once the mantissa is cut *)

(** What [binary_round_aux] does with the rounded mantissa: a last shift,
    should the rounding have carried into one more digit. *)
Definition finish (s : bool) (m e : Z) : spec_float :=
  let '(mrs, e') := shr_fexp JS.prec JS.emax m e loc_Exact in
  match shr_m mrs with
  | Z0 => S754_zero s
  | Zpos m' =>
      if e' <=? JS.emax - JS.prec then S754_finite s m' e' else S754_infinity s
  | Zneg _ => S754_nan
  end.

(** What [Math.random()] may return: a number [r] with [0 <= r < 1],
    other than [-0]. *)
Definition unit_interval (r : JS.number) : bool :=
  match r with
  | S754_zero s => negb s
  | S754_finite false _ _ =>
      valid_binary JS.prec JS.emax r && JS.lt r (JS.of_Z 1)
  | _ => false
  end.

(** What the rate of a gauge may be: a number [r] with [0 <= r <= 1],
    other than [-0]. *)
Definition fraction (r : JS.number) : bool :=
  match r with
  | S754_zero s => negb s
  | S754_finite false _ _ =>
      valid_binary JS.prec JS.emax r && SFleb r (JS.of_Z 1)
  | _ => false
  end.

(** * Binary64 arithmetic on integers *)

Section Binary64_facts.

Lemma iter_xO_Z m p : Zpos (Pos.iter xO m p) = Zpos m * 2 ^ Zpos p.
Proof.
  induction p as [|p IH] using Pos.peano_ind.
  - simpl Pos.iter. rewrite Z.pow_1_r. lia.
  - rewrite Pos.iter_succ, Pos2Z.inj_xO, IH, Pos2Z.inj_succ, Z.pow_succ_r by lia.
    ring.
Qed.

Lemma shl_Z m n : 0 <= n -> Zpos (shl m n) = Zpos m * 2 ^ n.
Proof.
  intros Hn. destruct n as [|p|p]; simpl shl.
  - rewrite Z.pow_0_r. lia.
  - apply iter_xO_Z.
  - lia.
Qed.

Lemma shl_shl m a b : 0 <= a -> 0 <= b -> shl (shl m a) b = shl m (a + b).
Proof.
  intros Ha Hb. apply Pos2Z.inj.
  rewrite !shl_Z by lia. rewrite Z.pow_add_r by lia. ring.
Qed.

Lemma digits2_iter_xO m p :
  Zpos (digits2_pos (Pos.iter xO m p)) = Zpos (digits2_pos m) + Zpos p.
Proof.
  induction p as [|p IH] using Pos.peano_ind.
  - simpl. lia.
  - rewrite Pos.iter_succ. simpl digits2_pos. lia.
Qed.

Lemma digits2_shl m n :
  0 <= n -> Zpos (digits2_pos (shl m n)) = Zpos (digits2_pos m) + n.
Proof.
  intros Hn. destruct n as [|p|p]; simpl shl.
  - lia.
  - apply digits2_iter_xO.
  - lia.
Qed.

Lemma digits2_bounds m :
  2 ^ (Zpos (digits2_pos m) - 1) <= Zpos m < 2 ^ Zpos (digits2_pos m).
Proof.
  induction m as [m IH|m IH|]; simpl digits2_pos.
  - rewrite Pos2Z.inj_succ, Z.pow_succ_r by lia.
    replace (Z.succ (Zpos (digits2_pos m)) - 1) with (Z.succ (Zpos (digits2_pos m) - 1)) by lia.
    rewrite Z.pow_succ_r by lia. lia.
  - rewrite Pos2Z.inj_succ, Z.pow_succ_r by lia.
    replace (Z.succ (Zpos (digits2_pos m)) - 1) with (Z.succ (Zpos (digits2_pos m) - 1)) by lia.
    rewrite Z.pow_succ_r by lia. lia.
  - simpl. lia.
Qed.

Lemma digits2_unique m d :
  2 ^ (d - 1) <= Zpos m < 2 ^ d -> Zpos (digits2_pos m) = d.
Proof.
  intros [Hl Hu]. pose proof (digits2_bounds m) as [Hl' Hu'].
  set (d' := Zpos (digits2_pos m)) in *.
  destruct (Z.lt_trichotomy d' d) as [Hlt|[Heq|Hgt]]; [|exact Heq|].
  - assert (2 ^ d' <= 2 ^ (d - 1)) by (apply Z.pow_le_mono_r; lia). lia.
  - assert (0 <= d).
    { destruct (Z.leb_spec 0 d); [assumption|].
      rewrite Z.pow_neg_r in Hu by lia. lia. }
    assert (2 ^ d <= 2 ^ (d' - 1)) by (apply Z.pow_le_mono_r; lia). lia.
Qed.

Lemma iter_pos_iter {A} (f : A -> A) p x : SpecFloat.iter_pos f p x = Pos.iter f x p.
Proof.
  revert x. induction p as [p IH|p IH|]; intros x; simpl.
  - rewrite !IH. now rewrite <- !Pos.iter_swap.
  - now rewrite !IH.
  - reflexivity.
Qed.

Lemma shr_exact m p :
  SpecFloat.iter_pos shr_1 p (exact (Zpos (Pos.iter xO m p))) = exact (Zpos m).
Proof.
  rewrite iter_pos_iter.
  induction p as [|p IH] using Pos.peano_ind.
  - reflexivity.
  - rewrite !Pos.iter_succ, <- Pos.iter_swap. exact IH.
Qed.

Local Abbreviation fexp := (SpecFloat.fexp JS.prec JS.emax).

Lemma shr_fexp_canonic m e :
  canonic m e ->
  shr_fexp JS.prec JS.emax (Zpos m) e loc_Exact = (exact (Zpos m), e).
Proof.
  intros [Hc _]. unfold shr_fexp. simpl Zdigits2.
  rewrite Hc, Z.sub_diag. reflexivity.
Qed.

Lemma round_canonic s m e :
  canonic m e ->
  binary_round_aux JS.prec JS.emax s (Zpos m) e loc_Exact = S754_finite s m e.
Proof.
  intros Hc. unfold binary_round_aux.
  rewrite (shr_fexp_canonic _ _ Hc).
  change (round_nearest_even (shr_m (exact (Zpos m)))
            (loc_of_shr_record (exact (Zpos m)))) with (Zpos m).
  rewrite (shr_fexp_canonic _ _ Hc).
  change (shr_m (exact (Zpos m))) with (Zpos m). cbv iota beta.
  destruct Hc as [_ He]. apply Z.leb_le in He. now rewrite He.
Qed.

Lemma round_shifted s m e n :
  canonic m e -> 0 <= n ->
  binary_round_aux JS.prec JS.emax s (Zpos (shl m n)) (e - n) loc_Exact
  = S754_finite s m e.
Proof.
  intros Hc Hn. destruct n as [|p|p]; [| |lia].
  - rewrite Z.sub_0_r. now apply round_canonic.
  - unfold binary_round_aux, shr_fexp at 1.
    simpl Zdigits2. simpl shl. rewrite digits2_iter_xO.
    replace (Zpos (digits2_pos m) + Zpos p + (e - Zpos p))
      with (Zpos (digits2_pos m) + e) by lia.
    destruct Hc as [Hc He]. rewrite Hc.
    replace (e - (e - Zpos p)) with (Zpos p) by lia.
    unfold shr, shr_record_of_loc. 
    fold (exact (Zpos (Pos.iter xO m p))). rewrite shr_exact.
    change (round_nearest_even (shr_m (exact (Zpos m)))
              (loc_of_shr_record (exact (Zpos m)))) with (Zpos m).
    replace (e - Zpos p + Zpos p) with e by lia.
    rewrite (shr_fexp_canonic m e (conj Hc He)).
    change (shr_m (exact (Zpos m))) with (Zpos m). cbv iota beta.
    apply Z.leb_le in He. now rewrite He.
Qed.

Lemma shl_align_fst m e e' :
  e' <= e -> shl_align m e e' = (shl m (e - e'), e').
Proof.
  intros H. unfold shl_align.
  destruct (e' - e) as [|d|d] eqn:E; [| lia |].
  - replace (e - e') with 0 by lia. simpl. f_equal. lia.
  - replace (e - e') with (Zpos d) by lia. reflexivity.
Qed.

Lemma canonic_shl m e n :
  0 <= n -> fexp (Zpos (digits2_pos m) + e) = e - n -> e - n <= JS.emax - JS.prec ->
  canonic (shl m n) (e - n).
Proof.
  intros Hn Hf He. split; [|assumption].
  rewrite digits2_shl by assumption.
  replace (Zpos (digits2_pos m) + n + (e - n)) with (Zpos (digits2_pos m) + e) by lia.
  assumption.
Qed.

(** Rounding a number that needs no right shift is exact. *)
Lemma round_exact s m e :
  let f := fexp (Zpos (digits2_pos m) + e) in
  f <= e -> f <= JS.emax - JS.prec ->
  binary_round JS.prec JS.emax s m e = S754_finite s (shl m (e - f)) f.
Proof.
  intros f Hf He. unfold binary_round. fold f.
  rewrite shl_align_fst by assumption.
  apply round_canonic.
  replace f with (e - (e - f)) at 2 by lia.
  apply canonic_shl; [lia | fold f; lia | lia].
Qed.

(** Trailing zeros of the mantissa do not change the rounded number. *)
Lemma round_shl s m e n :
  let f := fexp (Zpos (digits2_pos m) + e) in
  0 <= n -> f <= e -> f <= JS.emax - JS.prec ->
  binary_round JS.prec JS.emax s (shl m n) (e - n)
  = binary_round JS.prec JS.emax s m e.
Proof.
  intros f Hn Hf He. rewrite (round_exact s m e) by assumption. fold f.
  assert (Hd : Zpos (digits2_pos (shl m n)) + (e - n) = Zpos (digits2_pos m) + e)
    by (rewrite digits2_shl by assumption; lia).
  destruct (Z.le_gt_cases f (e - n)) as [Hle|Hgt].
  - rewrite round_exact; rewrite Hd; fold f; try assumption.
    rewrite shl_shl by lia. f_equal. f_equal. lia.
  - unfold binary_round. rewrite Hd. fold f.
    unfold shl_align. destruct (f - (e - n)) as [|d|d] eqn:E; try lia.
    replace (shl m n) with (shl (shl m (e - f)) (n - (e - f)))
      by (rewrite shl_shl by lia; f_equal; lia).
    replace (e - n) with (f - (n - (e - f))) by lia.
    apply round_shifted; [|lia].
    replace f with (e - (e - f)) at 2 by lia.
    apply canonic_shl; [lia | fold f; lia | lia].
Qed.

(** *** Integers below [2^53] *)

Lemma safe_digits k : Zpos k < 2 ^ 53 -> Zpos (digits2_pos k) <= 53.
Proof.
  intros H. pose proof (digits2_bounds k) as [Hl _].
  destruct (Z.le_gt_cases (Zpos (digits2_pos k)) 53) as [|Hgt]; [assumption|].
  assert (2 ^ 53 <= 2 ^ (Zpos (digits2_pos k) - 1)) by (apply Z.pow_le_mono_r; lia).
  lia.
Qed.

Lemma fexp_digits k e :
  Zpos (digits2_pos k) <= 53 ->
  -1021 <= Zpos (digits2_pos k) + e ->
  fexp (Zpos (digits2_pos k) + e) = Zpos (digits2_pos k) + e - 53.
Proof.
  intros H1 H2. unfold SpecFloat.fexp, emin, JS.prec, JS.emax. lia.
Qed.

Lemma mant_Z k :
  Zpos k < 2 ^ 53 -> Zpos (mant k) = Zpos k * 2 ^ (- expo k).
Proof.
  intros H. pose proof (safe_digits k H). unfold mant, expo.
  rewrite shl_Z by lia. do 2 f_equal. lia.
Qed.

Lemma round_safe s k n :
  Zpos k < 2 ^ 53 -> 0 <= n ->
  binary_round JS.prec JS.emax s (shl k n) (- n) = S754_finite s (mant k) (expo k).
Proof.
  intros H Hn. pose proof (safe_digits k H) as Hd.
  assert (Hf : fexp (Zpos (digits2_pos k) + 0) = expo k)
    by (rewrite fexp_digits by lia; unfold expo; lia).
  change (- n) with (0 - n).
  rewrite round_shl; rewrite ?Hf; unfold expo, JS.prec, JS.emax; try lia.
  rewrite round_exact; rewrite ?Hf; unfold expo, JS.prec, JS.emax; try lia.
  unfold mant. do 2 f_equal. lia.
Qed.

Lemma of_Z_pos k :
  Zpos k < 2 ^ 53 -> JS.of_Z (Zpos k) = S754_finite false (mant k) (expo k).
Proof.
  intros H. unfold JS.of_Z, binary_normalize.
  apply (round_safe false k 0 H). lia.
Qed.

Lemma of_Z_neg k :
  Zpos k < 2 ^ 53 -> JS.of_Z (Zneg k) = S754_finite true (mant k) (expo k).
Proof.
  intros H. unfold JS.of_Z, binary_normalize.
  apply (round_safe true k 0 H). lia.
Qed.

(** A safe integer scaled by a power of two normalizes to itself. *)
Lemma normalize_scaled z n :
  safe z -> 0 <= n ->
  binary_normalize JS.prec JS.emax (z * 2 ^ n) (- n) false = JS.of_Z z.
Proof.
  unfold safe. intros Hz Hn. destruct z as [|k|k].
  - reflexivity.
  - rewrite <- shl_Z by assumption. rewrite of_Z_pos by lia.
    unfold binary_normalize. apply round_safe; lia.
  - change (Zneg k) with (- Zpos k) at 1.
    rewrite Z.mul_opp_l, <- shl_Z by assumption. rewrite of_Z_neg by lia.
    unfold binary_normalize. simpl Z.opp. apply round_safe; lia.
Qed.

(** The sign, mantissa and exponent of a safe integer other than 0. *)
Lemma of_Z_finite z :
  safe z -> z <> 0 ->
  exists k, Zpos k = Z.abs z /\
    JS.of_Z z = S754_finite (z <? 0) (mant k) (expo k).
Proof.
  unfold safe. intros Hz Hnz. destruct z as [|k|k]; [lia| |]; exists k; split;
    try reflexivity.
  - apply of_Z_pos. lia.
  - apply of_Z_neg. lia.
Qed.

Lemma aligned k s e :
  Zpos k < 2 ^ 53 -> e <= expo k ->
  cond_Zopp s (Zpos (fst (shl_align (mant k) (expo k) e)))
  = cond_Zopp s (Zpos k) * 2 ^ (- e).
Proof.
  intros H He. pose proof (safe_digits k H) as Hd.
  rewrite shl_align_fst by assumption. simpl fst.
  rewrite shl_Z by lia. rewrite mant_Z by assumption.
  rewrite <- Z.mul_assoc, <- Z.pow_add_r by (unfold expo in *; lia).
  replace (- expo k + (expo k - e)) with (- e) by lia.
  destruct s; simpl cond_Zopp; lia.
Qed.

Lemma cond_Zopp_abs z k : Zpos k = Z.abs z -> cond_Zopp (z <? 0) (Zpos k) = z.
Proof.
  intros H. destruct (Z.ltb_spec z 0); simpl; lia.
Qed.

(** Addition of safe integers with a safe sum is exact. *)
Theorem add_of_Z a b :
  safe a -> safe b -> safe (a + b) ->
  JS.add (JS.of_Z a) (JS.of_Z b) = JS.of_Z (a + b).
Proof.
  intros Ha Hb Hab.
  destruct (Z.eq_dec a 0) as [->|Hna].
  { rewrite Z.add_0_l. destruct (Z.eq_dec b 0) as [->|Hnb]; [reflexivity|].
    destruct (of_Z_finite b Hb Hnb) as (k & _ & ->). reflexivity. }
  destruct (Z.eq_dec b 0) as [->|Hnb].
  { rewrite Z.add_0_r.
    destruct (of_Z_finite a Ha Hna) as (k & _ & ->). reflexivity. }
  destruct (of_Z_finite a Ha Hna) as (ka & Hka & ->).
  destruct (of_Z_finite b Hb Hnb) as (kb & Hkb & ->).
  unfold safe in Ha, Hb.
  unfold JS.add, SFadd.
  set (ez := Z.min (expo ka) (expo kb)).
  rewrite !aligned by (unfold ez; lia).
  rewrite (cond_Zopp_abs a ka Hka), (cond_Zopp_abs b kb Hkb).
  rewrite <- Z.mul_add_distr_r.
  replace ez with (- - ez) at 2 by lia.
  apply normalize_scaled; [assumption|].
  assert (Zpos (digits2_pos ka) <= 53) by (apply safe_digits; lia).
  unfold ez, expo. lia.
Qed.

Lemma digits2_mul a b :
  Zpos (digits2_pos a) + Zpos (digits2_pos b) - 1 <= Zpos (digits2_pos (a * b)).
Proof.
  pose proof (digits2_bounds a) as [Ha _].
  pose proof (digits2_bounds b) as [Hb _].
  pose proof (digits2_bounds (a * b)) as [_ Hab].
  destruct (Z.le_gt_cases (Zpos (digits2_pos a) + Zpos (digits2_pos b) - 1)
              (Zpos (digits2_pos (a * b)))) as [|Hgt]; [assumption|].
  assert (H : 2 ^ Zpos (digits2_pos (a * b))
              <= 2 ^ ((Zpos (digits2_pos a) - 1) + (Zpos (digits2_pos b) - 1)))
    by (apply Z.pow_le_mono_r; lia).
  rewrite Z.pow_add_r in H by lia.
  rewrite Pos2Z.inj_mul in Hab. nia.
Qed.

(** Multiplication of safe integers with a safe product is exact. *)
Theorem mul_of_Z a b :
  a <> 0 -> b <> 0 -> safe (a * b) ->
  JS.mul (JS.of_Z a) (JS.of_Z b) = JS.of_Z (a * b).
Proof.
  intros Hna Hnb Hab.
  assert (Ha : safe a) by (unfold safe in *; nia).
  assert (Hb : safe b) by (unfold safe in *; nia).
  destruct (of_Z_finite a Ha Hna) as (ka & Hka & ->).
  destruct (of_Z_finite b Hb Hnb) as (kb & Hkb & ->).
  destruct (of_Z_finite (a * b) Hab) as (k & Hk & ->); [nia|].
  assert (k = (ka * kb)%positive) as ->
    by (apply Pos2Z.inj; rewrite Pos2Z.inj_mul, Hk, Hka, Hkb; apply Z.abs_mul).
  unfold safe in *.
  assert (Hda : Zpos (digits2_pos ka) <= 53) by (apply safe_digits; lia).
  assert (Hdb : Zpos (digits2_pos kb) <= 53) by (apply safe_digits; lia).
  assert (Hdk : Zpos (digits2_pos (ka * kb)) <= 53) by (apply safe_digits; lia).
  pose proof (digits2_mul ka kb) as Hd.
  unfold JS.mul, SFmul.
  replace (xorb (a <? 0) (b <? 0)) with (a * b <? 0)
    by (destruct (Z.ltb_spec a 0), (Z.ltb_spec b 0), (Z.ltb_spec (a * b) 0);
        simpl; try reflexivity; nia).
  set (n := - expo ka - expo kb + expo (ka * kb)).
  replace (mant ka * mant kb)%positive with (shl (mant (ka * kb)) n).
  2:{ apply Pos2Z.inj. rewrite Pos2Z.inj_mul.
      rewrite shl_Z by (unfold n, expo; lia).
      rewrite !mant_Z by lia. rewrite Pos2Z.inj_mul.
      rewrite <- Z.mul_assoc, <- Z.pow_add_r by (unfold n, expo; lia).
      replace (- expo (ka * kb) + n) with (- expo ka + - expo kb) by (unfold n; lia).
      rewrite Z.pow_add_r by (unfold expo; lia). ring. }
  replace (expo ka + expo kb) with (expo (ka * kb) - n) by (unfold n; lia).
  apply round_shifted; [|unfold n, expo; lia].
  split; [|unfold expo, JS.prec, JS.emax; lia].
  unfold mant. rewrite digits2_shl by lia.
  unfold SpecFloat.fexp, emin, JS.prec, JS.emax, expo. lia.
Qed.

Lemma strict_eq_finite s m e : JS.strict_eq (S754_finite s m e) (S754_finite s m e) = true.
Proof.
  unfold JS.strict_eq, SFeqb, SFcompare.
  rewrite Z.compare_refl, Pos.compare_cont_refl. now destruct s.
Qed.

End Binary64_facts.

(** * Parameters *)

Lemma or_number_truthy x d : JS.truthy d = true -> JS.truthy (JS.or_number x d) = true.
Proof. intros Hd. unfold JS.or_number. now destruct (JS.truthy x) eqn:E. Qed.

Lemma truthy_not_zero x : JS.truthy x = true -> JS.is_zero x = false.
Proof. now destruct x. Qed.

(** C7, as it fails: a horizontal speed of "0" is numeric, the Number
    [+0], and yet the effective horizontal speed is the default 1 and not
    the 0 that was given. *)
Lemma horizontal_speed_zero_is_replaced :
  JS.Number (Some "0") = S754_zero false
  /\ parallaxHorizontalSpeed (zeroed "parallaxHorizontalSpeed") = JS.of_Z 1
  /\ JS.strict_eq (parallaxHorizontalSpeed (zeroed "parallaxHorizontalSpeed"))
       (JS.Number (Some "0")) = false.
Proof. repeat split; vm_compute; reflexivity. Qed.

(** C7, amended: the speeds default to 1 and 0 when the value is unset or
    not numeric, as for "abc"; the recovery always yields a number, never
    [NaN]; and a numeric value other than zero is used as given. *)
Theorem speeds_default_or_given (parameters : gmap string string) :
  let h := JS.Number (parameters !! "parallaxHorizontalSpeed") in
  let v := JS.Number (parameters !! "parallaxVerticalSpeed") in
  (h = JS.NaN -> parallaxHorizontalSpeed parameters = JS.of_Z 1)
  /\ (v = JS.NaN -> parallaxVerticalSpeed parameters = JS.of_Z 0)
  /\ (JS.truthy h = true -> parallaxHorizontalSpeed parameters = h)
  /\ (JS.truthy v = true -> parallaxVerticalSpeed parameters = v)
  /\ JS.is_nan (parallaxHorizontalSpeed parameters) = false
  /\ JS.is_nan (parallaxVerticalSpeed parameters) = false
  /\ JS.Number None = JS.NaN
  /\ JS.Number (Some "abc") = JS.NaN
  /\ parallaxHorizontalSpeed {[ "parallaxHorizontalSpeed" := "abc" ]} = JS.of_Z 1.
Proof.
  cbv zeta. unfold parallaxHorizontalSpeed, parallaxVerticalSpeed, JS.or_number.
  split; [now intros ->|]. split; [now intros ->|].
  split; [now intros ->|]. split; [now intros ->|].
  split; [now destruct (JS.Number (parameters !! "parallaxHorizontalSpeed"))|].
  split; [now destruct (JS.Number (parameters !! "parallaxVerticalSpeed"))|].
  repeat split; vm_compute; reflexivity.
Qed.

Lemma speeds_default_or_given_witness :
  let parameters : gmap string string :=
    {[ "parallaxHorizontalSpeed" := "-2.5" ]} in
  JS.truthy (JS.Number (parameters !! "parallaxHorizontalSpeed")) = true
  /\ JS.Number (parameters !! "parallaxVerticalSpeed") = JS.NaN
  /\ parallaxHorizontalSpeed parameters = JS.Number (Some "-2.5")
  /\ parallaxVerticalSpeed parameters = JS.of_Z 0.
Proof.
  pose proof (speeds_default_or_given {[ "parallaxHorizontalSpeed" := "-2.5" ]})
    as (_ & Hv & Hh & _).
  cbv zeta. split; [vm_compute; reflexivity|]. split; [vm_compute; reflexivity|].
  split.
  - rewrite Hh; vm_compute; reflexivity.
  - apply Hv. vm_compute. reflexivity.
Defined.

(** C10: a parameter set to "0" takes effect only for the vertical speed:
    the horizontal speed becomes 1, the volume 80 and the pitch 100, and
    whatever the parameters are, none of these three is ever zero. *)
Theorem zero_takes_effect_only_for_vertical_speed :
  parallaxHorizontalSpeed (zeroed "parallaxHorizontalSpeed") = JS.of_Z 1
  /\ musicVolume (zeroed "musicVolume") = JS.of_Z 80
  /\ musicPitch (zeroed "musicPitch") = JS.of_Z 100
  /\ parallaxVerticalSpeed (zeroed "parallaxVerticalSpeed") = S754_zero false
  /\ forall parameters : gmap string string,
       JS.is_zero (parallaxHorizontalSpeed parameters) = false
       /\ JS.is_zero (musicVolume parameters) = false
       /\ JS.is_zero (musicPitch parameters) = false.
Proof.
  split; [vm_compute; reflexivity|].
  split; [vm_compute; reflexivity|].
  split; [vm_compute; reflexivity|].
  split; [vm_compute; reflexivity|].
  intros parameters.
  repeat split; apply truthy_not_zero, or_number_truthy; reflexivity.
Qed.

(** * Parallax *)

Lemma frames_tiling parameters n origin :
  exists origin', frames parameters n (TilingSprite origin) = TilingSprite origin'.
Proof.
  induction n as [|n [o IH]]; simpl.
  - now exists origin.
  - rewrite IH. simpl. eauto.
Qed.

Lemma safe_scale v n : safe v -> safe (v * Z.of_nat (S n)) -> safe (v * Z.of_nat n).
Proof. unfold safe. intros Hv H. nia. Qed.

Lemma frames_of_Z parameters vx vy n :
  parallaxHorizontalSpeed parameters = JS.of_Z vx ->
  parallaxVerticalSpeed parameters = JS.of_Z vy ->
  safe vx -> safe vy ->
  safe (vx * Z.of_nat n) -> safe (vy * Z.of_nat n) ->
  frames parameters n (TilingSprite origin0)
  = TilingSprite {| x := JS.of_Z (vx * Z.of_nat n); y := JS.of_Z (vy * Z.of_nat n) |}.
Proof.
  intros Hx Hy Sx Sy. induction n as [|n IH]; intros Hnx Hny.
  - simpl frames. rewrite !Z.mul_0_r. reflexivity.
  - simpl frames. rewrite IH by (apply safe_scale; assumption).
    unfold Scene_MenuBase_update. cbn [x y]. rewrite Hx, Hy.
    assert (Hsx : safe (vx * Z.of_nat n + vx))
      by (replace (vx * Z.of_nat n + vx) with (vx * Z.of_nat (S n)) by lia; assumption).
    assert (Hsy : safe (vy * Z.of_nat n + vy))
      by (replace (vy * Z.of_nat n + vy) with (vy * Z.of_nat (S n)) by lia; assumption).
    rewrite !add_of_Z by (try assumption; apply safe_scale; assumption).
    do 2 f_equal; f_equal; lia.
Qed.

Lemma strict_eq_product v n :
  safe v -> safe n -> safe (v * n) ->
  JS.strict_eq (JS.of_Z (v * n)) (JS.mul (JS.of_Z v) (JS.of_Z n)) = true.
Proof.
  intros Sv Sn Svn.
  destruct (Z.eq_dec n 0) as [->|Hn].
  { rewrite Z.mul_0_r. destruct (Z.eq_dec v 0) as [->|Hv]; [reflexivity|].
    destruct (of_Z_finite v Sv Hv) as (k & _ & ->). reflexivity. }
  destruct (Z.eq_dec v 0) as [->|Hv].
  { destruct (of_Z_finite n Sn Hn) as (k & _ & ->). reflexivity. }
  rewrite mul_of_Z by assumption.
  destruct (of_Z_finite (v * n) Svn) as (k & _ & ->); [nia|].
  apply strict_eq_finite.
Qed.

(** C6, as it fails: with the horizontal speed "0.1", ten frames from the
    origin (0, 0) leave [origin.x] at 0.9999999999999999, which is not
    [0.1 * 10 = 1]; and with the integer speed 3002399751580331, six frames
    leave it at 18014398509481988, which is not the product
    18014398509481984. *)
Lemma origin_is_not_product_tenth :
  frames (sky "0.1") 10 (Scene_MenuBase_createBackground (sky "0.1"))
  = TilingSprite {| x := S754_finite false 9007199254740991 (-53);
                    y := S754_zero false |}
  /\ JS.mul (parallaxHorizontalSpeed (sky "0.1")) (JS.of_Z 10)
     = S754_finite false 4503599627370496 (-52)
  /\ origin_is_product (sky "0.1") 10 = false
  /\ frames (sky "3002399751580331") 6 (TilingSprite origin0)
     = TilingSprite {| x := JS.of_Z 18014398509481988; y := S754_zero false |}
  /\ JS.mul (parallaxHorizontalSpeed (sky "3002399751580331")) (JS.of_Z 6)
     = JS.of_Z 18014398509481984
  /\ origin_is_product (sky "3002399751580331") 6 = false.
Proof. repeat split; vm_compute; reflexivity. Qed.

(** C6, amended: for integer speeds [vx] and [vy] and [n] frames such
    that [vx], [vy], [n], [vx * n] and [vy * n] are below [2^53] in
    absolute value, [n] frames from the origin (0, 0) leave the origin at exactly
    [(vx * n, vy * n)], each frame adding [vx] to [origin.x] and [vy] to
    [origin.y]. *)
Theorem origin_is_product_of_integers
    (parameters : gmap string string) (vx vy : Z) (n : nat) :
  parallaxHorizontalSpeed parameters = JS.of_Z vx ->
  parallaxVerticalSpeed parameters = JS.of_Z vy ->
  Z.abs vx < 2 ^ 53 -> Z.abs vy < 2 ^ 53 -> Z.of_nat n < 2 ^ 53 ->
  Z.abs vx * Z.of_nat n < 2 ^ 53 -> Z.abs vy * Z.of_nat n < 2 ^ 53 ->
  frames parameters n (TilingSprite origin0)
  = TilingSprite {| x := JS.of_Z (vx * Z.of_nat n); y := JS.of_Z (vy * Z.of_nat n) |}
  /\ frames parameters (S n) (TilingSprite origin0)
     = TilingSprite
         {| x := JS.add (JS.of_Z (vx * Z.of_nat n)) (JS.of_Z vx);
            y := JS.add (JS.of_Z (vy * Z.of_nat n)) (JS.of_Z vy) |}
  /\ origin_is_product parameters n = true.
Proof.
  intros Hx Hy Sx Sy Sn Snx Sny.
  assert (Sn' : safe (Z.of_nat n)) by (unfold safe; lia).
  assert (Snx' : safe (vx * Z.of_nat n)) by (unfold safe; rewrite Z.abs_mul; lia).
  assert (Sny' : safe (vy * Z.of_nat n)) by (unfold safe; rewrite Z.abs_mul; lia).
  pose proof (frames_of_Z parameters vx vy n Hx Hy Sx Sy Snx' Sny') as Hn.
  split; [exact Hn|]. split.
  - simpl frames. rewrite Hn. unfold Scene_MenuBase_update. cbn [x y].
    now rewrite Hx, Hy.
  - unfold origin_is_product. rewrite Hn. cbn [x y]. rewrite Hx, Hy.
    rewrite !strict_eq_product by assumption. reflexivity.
Qed.

Lemma origin_is_product_of_integers_witness :
  frames (sky "3") 1000 (TilingSprite origin0)
  = TilingSprite {| x := JS.of_Z (3 * Z.of_nat 1000); y := JS.of_Z (0 * Z.of_nat 1000) |}
  /\ frames (sky "3") 1001 (TilingSprite origin0)
     = TilingSprite
         {| x := JS.add (JS.of_Z (3 * Z.of_nat 1000)) (JS.of_Z 3);
            y := JS.add (JS.of_Z (0 * Z.of_nat 1000)) (JS.of_Z 0) |}
  /\ origin_is_product (sky "3") 1000 = true.
Proof.
  apply (origin_is_product_of_integers (sky "3") 3 0 1000);
    first [ vm_compute; reflexivity | lia ].
Defined.

(** * Menu music *)

Section Hooks.

Variable parameters : gmap string string.

Lemma trace_Scene_Menu_start st :
  trace (Scene_Menu_start parameters st)
  = trace st
    ++ (if JS.truthy_string (menuMusic parameters) && negb (_menuMusicActive st)
        then [Audio StopBgm; menu_track parameters] else []).
Proof.
  unfold Scene_Menu_start.
  destruct (JS.truthy_string (menuMusic parameters) && negb (_menuMusicActive st)).
  - simpl. now rewrite <- app_assoc.
  - now rewrite app_nil_r.
Qed.

Lemma active_Scene_Menu_start st :
  _menuMusicActive (Scene_Menu_start parameters st)
  = _menuMusicActive st || JS.truthy_string (menuMusic parameters).
Proof.
  unfold Scene_Menu_start.
  destruct (JS.truthy_string (menuMusic parameters)),
    (_menuMusicActive st) eqn:Ha; simpl; rewrite ?Ha; reflexivity.
Qed.

Lemma Scene_Menu_start_active st :
  _menuMusicActive st = true -> Scene_Menu_start parameters st = st.
Proof.
  intros H. unfold Scene_Menu_start. rewrite H, andb_false_r. reflexivity.
Qed.

Lemma Scene_Menu_start_twice st :
  Scene_Menu_start parameters (Scene_Menu_start parameters st)
  = Scene_Menu_start parameters st.
Proof.
  destruct (JS.truthy_string (menuMusic parameters)) eqn:Hm.
  - apply Scene_Menu_start_active. rewrite active_Scene_Menu_start, Hm.
    apply orb_true_r.
  - unfold Scene_Menu_start. rewrite Hm. reflexivity.
Qed.

Lemma Scene_MenuBase_terminate_inactive next st :
  _menuMusicActive st = false -> Scene_MenuBase_terminate next st = st.
Proof. intros H. unfold Scene_MenuBase_terminate. now rewrite H. Qed.

Lemma Scene_MenuBase_terminate_inside next st :
  instanceof_Scene_Map next = false -> Scene_MenuBase_terminate next st = st.
Proof.
  intros H. unfold Scene_MenuBase_terminate. now rewrite H, andb_false_r.
Qed.

Lemma trace_Scene_MenuBase_terminate st :
  trace (Scene_MenuBase_terminate (Some Scene_Map) st)
  = trace st ++ restore (_menuMusicActive st) (_currentMapBgm st).
Proof.
  unfold Scene_MenuBase_terminate, restore.
  destruct (_menuMusicActive st); simpl.
  - destruct (_currentMapBgm st); simpl; [now rewrite <- app_assoc | reflexivity].
  - now rewrite app_nil_r.
Qed.

Lemma exit_keeps st :
  _menuMusicActive (Scene_MenuBase_terminate (Some Scene_Map) st) = false
  /\ _currentMapBgm (Scene_MenuBase_terminate (Some Scene_Map) st)
     = _currentMapBgm st.
Proof.
  unfold Scene_MenuBase_terminate.
  destruct (_menuMusicActive st) eqn:Ha; simpl.
  - destruct (_currentMapBgm st) eqn:Hs; simpl; rewrite ?Hs; split; reflexivity.
  - split; [assumption | reflexivity].
Qed.

End Hooks.

(** C1: with the menu track "Theme1" at volume 80 and pitch 100, and the
    map playing "Field" at 12.5 s, entering the menu captures the track and
    then issues stop and play("Theme1", 80, 100, 0); leaving for the map
    issues stop and the resume of "Field" at 12.5 s; no other call changes
    what is played.  (12.5 is the binary64 number 7036874417766400 * 2^-49.) *)
Theorem theme1_over_field (v p n : JS.number) :
  let st0 := on_map (Some (field v p n)) in
  let st1 := changeScene theme1 Scene_Menu st0 in
  let st2 := changeScene theme1 Scene_Map st1 in
  trace st1
  = [Audio SaveBgm; Activated Scene_Menu;
     Audio StopBgm; Audio (PlayBgm "Theme1" (JS.of_Z 80) (JS.of_Z 100) (JS.of_Z 0))]
  /\ commands (trace st1)
     = [Audio StopBgm; Audio (PlayBgm "Theme1" (JS.of_Z 80) (JS.of_Z 100) (JS.of_Z 0))]
  /\ trace st2
     = trace st1 ++ [Audio StopBgm; Audio (ReplayBgm (field v p n)); Activated Scene_Map]
  /\ commands (trace st2)
     = commands (trace st1) ++ [Audio StopBgm; Audio (ReplayBgm (field v p n))]
  /\ pos (field v p n) = S754_finite false 7036874417766400 (-49)
  /\ _currentBgm st2 = Some (field v p n).
Proof. repeat split; vm_compute; reflexivity. Qed.

(** C2, as it fails: after a menu visit over "Field", the snapshot is
    still held once the menu has been left for the map. *)
Lemma snapshot_survives_exit :
  let st := changeScene theme1 Scene_Menu
              (on_map (Some (field (JS.of_Z 90) (JS.of_Z 100) (JS.of_Z 0)))) in
  let st' := Scene_MenuBase_terminate (Some Scene_Map) st in
  _menuMusicActive st' = false
  /\ _currentMapBgm st' = Some (field (JS.of_Z 90) (JS.of_Z 100) (JS.of_Z 0))
  /\ ~ (_menuMusicActive st' = false /\ _currentMapBgm st' = None).
Proof.
  repeat split; try (vm_compute; reflexivity).
  intros [_ H]. vm_compute in H. discriminate H.
Qed.

(** C2, amended: once the termination of a menu scene for the map is
    over, the menu music is inactive, whatever held before; the saved
    snapshot is kept as it was. *)
Theorem exit_clears_active_keeps_snapshot (st : State) :
  let st' := Scene_MenuBase_terminate (Some Scene_Map) st in
  _menuMusicActive st' = false
  /\ _currentMapBgm st' = _currentMapBgm st.
Proof.
  cbv zeta. unfold Scene_MenuBase_terminate.
  destruct (_menuMusicActive st) eqn:Ha; simpl.
  - destruct (_currentMapBgm st) eqn:Hs; simpl; rewrite ?Hs; split; reflexivity.
  - split; [assumption | reflexivity].
Qed.

(** C3: with a menu track configured and not yet active, two calls of
    the start hook in a row issue stop and play once: the first call
    appends them, the second call leaves the state, and so the device and
    its calls, as the first one left it. *)
Theorem menu_start_twice_starts_once
    (parameters : gmap string string) (st : State) :
  JS.truthy_string (menuMusic parameters) = true ->
  _menuMusicActive st = false ->
  let st1 := Scene_Menu_start parameters st in
  let st2 := Scene_Menu_start parameters st1 in
  trace st1 = trace st ++ [Audio StopBgm; menu_track parameters]
  /\ _currentBgm st1 = Some (menu_bgm parameters)
  /\ _menuMusicActive st1 = true
  /\ st2 = st1
  /\ trace st2 = trace st ++ [Audio StopBgm; menu_track parameters].
Proof.
  intros Hm Ha. cbv zeta.
  rewrite Scene_Menu_start_twice, trace_Scene_Menu_start, active_Scene_Menu_start.
  rewrite Hm, Ha. repeat split.
  unfold Scene_Menu_start. rewrite Hm, Ha. reflexivity.
Qed.

Lemma menu_start_twice_starts_once_witness :
  let st := on_map None in
  let st1 := Scene_Menu_start theme1 st in
  let st2 := Scene_Menu_start theme1 st1 in
  trace st1 = trace st ++ [Audio StopBgm; menu_track theme1]
  /\ _currentBgm st1 = Some (menu_bgm theme1)
  /\ _menuMusicActive st1 = true
  /\ st2 = st1
  /\ trace st2 = trace st ++ [Audio StopBgm; menu_track theme1].
Proof.
  apply (menu_start_twice_starts_once theme1 (on_map None)); reflexivity.
Defined.

(** * Sessions *)

Section Sessions.

Variable parameters : gmap string string.

Arguments JS.truthy_string : simpl never.

Local Abbreviation music := (JS.truthy_string (menuMusic parameters)).
Local Abbreviation started := (starts parameters).

Lemma scene_enter c st : _scene (enter parameters c st) = c.
Proof.
  unfold enter, start, Scene_Menu_start.
  destruct c; try reflexivity.
  now destruct (JS.truthy_string (menuMusic parameters) && _).
Qed.

Lemma saved_enter c st :
  _currentMapBgm (enter parameters c st) = _currentMapBgm st.
Proof.
  unfold enter, start, Scene_Menu_start.
  destruct c; try reflexivity.
  now destruct (JS.truthy_string (menuMusic parameters) && _).
Qed.

Lemma active_enter c st :
  _menuMusicActive (enter parameters c st)
  = _menuMusicActive st || started (_menuMusicActive st) [c].
Proof.
  unfold enter, start, starts.
  destruct c; simpl; rewrite ?andb_false_r, ?orb_false_r; try reflexivity.
  rewrite active_Scene_Menu_start. simpl.
  now destruct (_menuMusicActive st), (JS.truthy_string (menuMusic parameters)).
Qed.

Lemma bgm_enter c st :
  _currentBgm (enter parameters c st)
  = if started (_menuMusicActive st) [c] then Some (menu_bgm parameters)
    else _currentBgm st.
Proof.
  unfold enter, start, starts, Scene_Menu_start.
  destruct c; simpl; rewrite ?andb_false_r; try reflexivity.
  destruct (_menuMusicActive st), (JS.truthy_string (menuMusic parameters));
    reflexivity.
Qed.

Lemma trace_enter c st :
  trace (enter parameters c st)
  = trace st ++ Activated c ::
      (if started (_menuMusicActive st) [c]
       then [Audio StopBgm; menu_track parameters] else []).
Proof.
  unfold enter, start, starts.
  destruct c; simpl; rewrite ?andb_false_r; try reflexivity.
  rewrite trace_Scene_Menu_start. simpl. rewrite <- app_assoc. simpl.
  now destruct (_menuMusicActive st), (JS.truthy_string (menuMusic parameters)).
Qed.

Lemma changeScene_inside c st :
  extends_Scene_MenuBase (_scene st) = true ->
  extends_Scene_MenuBase c = true ->
  changeScene parameters c st = enter parameters c st.
Proof.
  intros Hs Hc. unfold changeScene, enter, terminate.
  rewrite Hs.
  rewrite Scene_MenuBase_terminate_inside by (destruct c; easy).
  destruct (_scene st); try reflexivity. discriminate Hs.
Qed.

Lemma changeScene_from_map c st :
  _scene st = Scene_Map ->
  extends_Scene_MenuBase c = true ->
  changeScene parameters c st
  = enter parameters c (set_currentMapBgm (_currentBgm st) (log (Audio SaveBgm) st)).
Proof.
  intros Hs Hc. unfold changeScene, enter, terminate, Scene_Map_terminate.
  rewrite Hs. simpl. rewrite Hc. reflexivity.
Qed.

Lemma changeScene_to_map st :
  extends_Scene_MenuBase (_scene st) = true ->
  changeScene parameters Scene_Map st
  = log (Activated Scene_Map)
      (set_scene Scene_Map (Scene_MenuBase_terminate (Some Scene_Map) st)).
Proof.
  intros Hs. unfold changeScene, terminate, start. rewrite Hs.
  destruct (_scene st); try reflexivity. discriminate Hs.
Qed.

Lemma commands_app t1 t2 : commands (t1 ++ t2) = commands t1 ++ commands t2.
Proof. apply List.filter_app. Qed.

Lemma changeScenes_app a b st :
  changeScenes parameters (a ++ b) st
  = changeScenes parameters b (changeScenes parameters a st).
Proof. apply fold_left_app. Qed.

Lemma changeScenes_cons c ms st :
  changeScenes parameters (c :: ms) st
  = changeScenes parameters ms (changeScene parameters c st).
Proof. reflexivity. Qed.

Lemma changeScenes_one c st :
  changeScenes parameters [c] st = changeScene parameters c st.
Proof. reflexivity. Qed.

(** Moving through menu scenes: no capture and no restore, the snapshot
    is kept, and the menu track is started at most once. *)
Lemma changeScenes_inside ms : forall st,
  extends_Scene_MenuBase (_scene st) = true ->
  forallb extends_Scene_MenuBase ms = true ->
  let st' := changeScenes parameters ms st in
  let go := started (_menuMusicActive st) ms in
  extends_Scene_MenuBase (_scene st') = true
  /\ _currentMapBgm st' = _currentMapBgm st
  /\ _menuMusicActive st' = _menuMusicActive st || go
  /\ _currentBgm st' = (if go then Some (menu_bgm parameters) else _currentBgm st)
  /\ exists inside,
       trace st' = trace st ++ inside
       /\ forallb menu_phase inside = true
       /\ commands inside
          = if go then [Audio StopBgm; menu_track parameters] else [].
Proof.
  induction ms as [|c ms IH]; intros st Hs Hms; cbv zeta.
  - unfold starts. simpl. rewrite !andb_false_r, orb_false_r.
    repeat split; try assumption.
    exists []. now rewrite app_nil_r.
  - simpl in Hms. apply andb_prop in Hms as [Hc Hms].
    rewrite changeScenes_cons, changeScene_inside by assumption.
    destruct (IH (enter parameters c st)) as (H1 & H2 & H3 & H4 & inside & H5 & H6 & H7);
      [now rewrite scene_enter | assumption |].
    rewrite saved_enter in H2. rewrite active_enter in H3, H4, H7.
    rewrite bgm_enter in H4. rewrite trace_enter in H5.
    split; [assumption|]. split; [assumption|].
    rewrite H3, H4.
    split; [|split].
    + unfold starts. simpl.
      now destruct (_menuMusicActive st), music, (is_Scene_Menu c),
        (existsb is_Scene_Menu ms).
    + unfold starts. simpl.
      now destruct (_menuMusicActive st), music, (is_Scene_Menu c),
        (existsb is_Scene_Menu ms).
    + eexists. split; [rewrite H5, <- app_assoc; reflexivity|]. split.
      * simpl. rewrite Hc. simpl. rewrite forallb_app, H6.
        now destruct (started (_menuMusicActive st) [c]).
      * change (commands (?e :: ?l)) with (commands ([e] ++ l)).
        rewrite !commands_app, H7. unfold starts. simpl.
        now destruct (_menuMusicActive st), music, (is_Scene_Menu c),
          (existsb is_Scene_Menu ms).
Qed.

(** A whole session, from the map and back. *)
Lemma session_facts ms st :
  _scene st = Scene_Map ->
  ms <> [] ->
  forallb extends_Scene_MenuBase ms = true ->
  let st' := session parameters ms st in
  let go := started (_menuMusicActive st) ms in
  _scene st' = Scene_Map
  /\ _currentBgm st' = _currentBgm st
  /\ _currentMapBgm st' = _currentBgm st
  /\ _menuMusicActive st' = false
  /\ exists inside,
       trace st'
       = trace st ++ [Audio SaveBgm] ++ inside
           ++ restore (_menuMusicActive st || go) (_currentBgm st)
           ++ [Activated Scene_Map]
       /\ forallb menu_phase inside = true
       /\ commands inside
          = if go then [Audio StopBgm; menu_track parameters] else [].
Proof.
  intros Hs Hne Hms. destruct ms as [|c ms]; [congruence|]. clear Hne.
  assert (Hc : extends_Scene_MenuBase c = true)
    by (simpl in Hms; now apply andb_prop in Hms as [Hc _]).
  cbv zeta. unfold session.
  rewrite changeScenes_app, changeScenes_one, (changeScenes_cons c ms).
  rewrite (changeScene_from_map c st) by assumption.
  set (st1 := set_currentMapBgm (_currentBgm st) (log (Audio SaveBgm) st)).
  assert (E : enter parameters c st1
              = changeScene parameters c (set_scene c st1))
    by (now rewrite changeScene_inside).
  rewrite E, <- changeScenes_cons.
  destruct (changeScenes_inside (c :: ms) (set_scene c st1))
    as (H1 & H2 & H3 & H4 & inside & H5 & H6 & H7); [assumption..|].
  remember (changeScenes parameters (c :: ms) (set_scene c st1)) as st2 eqn:E2.
  simpl in H2, H3, H4, H5, H7.
  rewrite changeScene_to_map by assumption.
  cbn [_scene _currentBgm _currentMapBgm _menuMusicActive trace log set_scene].
  pose proof (exit_keeps st2) as [Ha Hb].
  split; [reflexivity|]. split; [|split; [congruence|split; [assumption|]]].
  - unfold Scene_MenuBase_terminate. rewrite H3.
    destruct (_menuMusicActive st || started (_menuMusicActive st) (c :: ms)) eqn:Hact.
    + simpl. rewrite H2. now destruct (_currentBgm st).
    + simpl. rewrite H4. apply orb_false_elim in Hact as [_ ->]. reflexivity.
  - exists inside. split; [|split; assumption].
    rewrite trace_Scene_MenuBase_terminate, H5, H3, H2.
    now rewrite <- !app_assoc.
Qed.

End Sessions.

Lemma menu_phase_no_replay inside :
  forallb menu_phase inside = true -> existsb is_replay inside = false.
Proof.
  induction inside as [|e inside IH]; [reflexivity|]. simpl.
  intros H. apply andb_prop in H as [He H]. rewrite (IH H), orb_false_r.
  destruct e as [[| | |]|]; try reflexivity. discriminate He.
Qed.

(** C9: in every session, from the map through menu scenes and back, the
    capture comes first; then come only menu scenes and at most one start
    of the menu track; the stop and the resume come after all of that and
    before the map is the active scene again. *)
Theorem session_phases
    (parameters : gmap string string) (c : SceneClass) (ms : list SceneClass)
    (st : State) :
  _scene st = Scene_Map ->
  forallb extends_Scene_MenuBase (c :: ms) = true ->
  exists inside,
    trace (session parameters (c :: ms) st)
    = trace st ++ [Audio SaveBgm] ++ inside
        ++ restore (_menuMusicActive st
                    || starts parameters (_menuMusicActive st) (c :: ms))
             (_currentBgm st)
        ++ [Activated Scene_Map]
    /\ forallb menu_phase inside = true
    /\ commands inside
       = if starts parameters (_menuMusicActive st) (c :: ms)
         then [Audio StopBgm; menu_track parameters] else [].
Proof.
  intros Hs Hms.
  destruct (session_facts parameters (c :: ms) st Hs) as (_ & _ & _ & _ & H);
    [discriminate | assumption | exact H].
Qed.

Lemma session_phases_witness :
  exists inside,
    trace (session theme1 [Scene_Menu; Scene_Item; Scene_Menu]
             (on_map (Some (field (JS.of_Z 90) (JS.of_Z 100) (JS.of_Z 0)))))
    = [] ++ [Audio SaveBgm] ++ inside
        ++ restore (false || starts theme1 false [Scene_Menu; Scene_Item; Scene_Menu])
             (Some (field (JS.of_Z 90) (JS.of_Z 100) (JS.of_Z 0)))
        ++ [Activated Scene_Map]
    /\ forallb menu_phase inside = true
    /\ commands inside
       = if starts theme1 false [Scene_Menu; Scene_Item; Scene_Menu]
         then [Audio StopBgm; menu_track theme1] else [].
Proof.
  apply (session_phases theme1 Scene_Menu [Scene_Item; Scene_Menu]
           (on_map (Some (field (JS.of_Z 90) (JS.of_Z 100) (JS.of_Z 0)))));
    reflexivity.
Defined.

(** C4: when nothing is playing as the map is left, the captured
    snapshot is absent, the session issues no resume, and the device is
    silent at the end. *)
Theorem no_resume_without_snapshot
    (parameters : gmap string string) (c : SceneClass) (ms : list SceneClass)
    (st : State) :
  _scene st = Scene_Map ->
  _currentBgm st = None ->
  forallb extends_Scene_MenuBase (c :: ms) = true ->
  let st' := session parameters (c :: ms) st in
  _currentMapBgm st' = None
  /\ _currentBgm st' = None
  /\ exists issued,
       trace st' = trace st ++ issued /\ existsb is_replay issued = false.
Proof.
  intros Hs Hb Hms.
  destruct (session_facts parameters (c :: ms) st Hs)
    as (_ & H2 & H3 & _ & inside & H5 & H6 & _);
    [discriminate | assumption |].
  cbv zeta. rewrite H2, H3, Hb. repeat split.
  eexists. split; [exact H5|].
  rewrite Hb, !existsb_app, (menu_phase_no_replay inside H6).
  now destruct (_menuMusicActive st || _).
Qed.

Lemma no_resume_without_snapshot_witness :
  let st' := session theme1 [Scene_Menu] (on_map None) in
  _currentMapBgm st' = None
  /\ _currentBgm st' = None
  /\ exists issued,
       trace st' = trace (on_map None) ++ issued
       /\ existsb is_replay issued = false.
Proof.
  apply (no_resume_without_snapshot theme1 Scene_Menu [] (on_map None));
    reflexivity.
Defined.

(** * Without a menu track *)

Section Disabled.

Variable parameters : gmap string string.
Hypothesis disabled : menuMusic parameters = "".

Lemma start_disabled c st : start parameters c st = st.
Proof.
  destruct c; try reflexivity.
  unfold start, Scene_Menu_start. now rewrite disabled.
Qed.

Lemma changeScene_disabled c st :
  _menuMusicActive st = false ->
  let st' := changeScene parameters c st in
  _menuMusicActive st' = false
  /\ _currentBgm st' = _currentBgm st
  /\ commands (trace st') = commands (trace st).
Proof.
  intros Ha. cbv zeta. unfold changeScene. rewrite start_disabled.
  cbn [_menuMusicActive _currentBgm trace log set_scene].
  assert (H : _menuMusicActive (terminate (_scene st) (Some c) st) = false
              /\ _currentBgm (terminate (_scene st) (Some c) st) = _currentBgm st
              /\ commands (trace (terminate (_scene st) (Some c) st))
                 = commands (trace st)).
  { unfold terminate.
    destruct (_scene st); simpl;
      rewrite ?Scene_MenuBase_terminate_inactive by assumption; auto.
    unfold Scene_Map_terminate.
    destruct (instanceof_Scene_MenuBase (Some c)); simpl; auto.
    repeat split; [assumption|].
    unfold commands. rewrite List.filter_app. simpl. apply app_nil_r. }
  destruct H as (H1 & H2 & H3). repeat split; try assumption.
  unfold commands in *. rewrite List.filter_app. simpl. now rewrite app_nil_r.
Qed.

Lemma changeScenes_disabled cs : forall st,
  _menuMusicActive st = false ->
  let st' := changeScenes parameters cs st in
  _menuMusicActive st' = false
  /\ _currentBgm st' = _currentBgm st
  /\ commands (trace st') = commands (trace st).
Proof.
  induction cs as [|c cs IH]; intros st Ha; cbv zeta.
  - repeat split. assumption.
  - destruct (changeScene_disabled c st Ha) as (H1 & H2 & H3).
    destruct (IH _ H1) as (K1 & K2 & K3).
    change (changeScenes parameters (c :: cs) st)
      with (changeScenes parameters cs (changeScene parameters c st)).
    repeat split; congruence.
Qed.

End Disabled.

(** C8: with the empty menu track, no sequence of scene changes, and so
    no menu session, ever issues a stop, play or resume; the device keeps
    playing what it played. *)
Theorem disabled_music_leaves_audio_alone
    (parameters : gmap string string) (scene : SceneClass) (bgm : option Bgm)
    (cs ms : list SceneClass) :
  menuMusic parameters = "" ->
  let st := changeScenes parameters cs (initial scene bgm) in
  let st' := session parameters ms st in
  commands (trace st) = [] /\ _currentBgm st = bgm
  /\ commands (trace st') = [] /\ _currentBgm st' = bgm
  /\ trace (session parameters [Scene_Menu] (on_map bgm))
     = [Audio SaveBgm; Activated Scene_Menu; Activated Scene_Map].
Proof.
  intros Hm. cbv zeta.
  destruct (changeScenes_disabled parameters Hm cs (initial scene bgm) eq_refl)
    as (H1 & H2 & H3).
  destruct (changeScenes_disabled parameters Hm (ms ++ [Scene_Map]) _ H1)
    as (K1 & K2 & K3).
  unfold session. simpl in H2, H3.
  repeat split; try congruence.
  unfold changeScenes, changeScene, on_map. simpl.
  unfold Scene_Menu_start. rewrite Hm. reflexivity.
Qed.

Lemma disabled_music_leaves_audio_alone_witness :
  let bgm := Some (field (JS.of_Z 90) (JS.of_Z 100) (JS.of_Z 0)) in
  let st := changeScenes ∅ [Scene_Map] (initial Scene_Title bgm) in
  let st' := session ∅ [Scene_Menu; Scene_Item] st in
  commands (trace st) = [] /\ _currentBgm st = bgm
  /\ commands (trace st') = [] /\ _currentBgm st' = bgm
  /\ trace (session ∅ [Scene_Menu] (on_map bgm))
     = [Audio SaveBgm; Activated Scene_Menu; Activated Scene_Map].
Proof.
  apply (disabled_music_leaves_audio_alone ∅ Scene_Title
           (Some (field (JS.of_Z 90) (JS.of_Z 100) (JS.of_Z 0)))
           [Scene_Map] [Scene_Menu; Scene_Item]).
  reflexivity.
Defined.

(** * The active flag *)

Section Active.

Variable parameters : gmap string string.

Lemma calls_snoc hs h st :
  calls parameters (hs ++ [h]) st = call parameters h (calls parameters hs st).
Proof. unfold calls. now rewrite fold_left_app. Qed.

(** A hook other than the start hook never raises the flag. *)
Lemma call_raises h st :
  _menuMusicActive st = false ->
  _menuMusicActive (call parameters h st) = true ->
  h = Menu_start
  /\ JS.truthy_string (menuMusic parameters) = true
  /\ trace (call parameters h st)
     = trace st ++ [Audio StopBgm; menu_track parameters]
  /\ _currentBgm (call parameters h st) = Some (menu_bgm parameters).
Proof.
  intros Ha H. destruct h as [next| |next]; simpl in *.
  - unfold Scene_Map_terminate in H.
    destruct (instanceof_Scene_MenuBase next); simpl in H; congruence.
  - rewrite trace_Scene_Menu_start. rewrite active_Scene_Menu_start, Ha in H.
    simpl in H. rewrite H, Ha. repeat split.
    unfold Scene_Menu_start. now rewrite H, Ha.
  - rewrite Scene_MenuBase_terminate_inactive in H by assumption. congruence.
Qed.

(** While the flag stays up, a hook is not an exit, issues no command
    and leaves the device alone. *)
Lemma call_keeps h st :
  _menuMusicActive st = true ->
  _menuMusicActive (call parameters h st) = true ->
  is_exit h = false
  /\ _currentBgm (call parameters h st) = _currentBgm st
  /\ exists more,
       trace (call parameters h st) = trace st ++ more /\ commands more = [].
Proof.
  intros Ha H. destruct h as [next| |next]; simpl in *.
  - unfold Scene_Map_terminate.
    destruct (instanceof_Scene_MenuBase next); simpl.
    + repeat split. now exists [Audio SaveBgm].
    + repeat split. exists []. now rewrite app_nil_r.
  - rewrite Scene_Menu_start_active by assumption.
    repeat split. exists []. now rewrite app_nil_r.
  - destruct (instanceof_Scene_Map next) eqn:Hn.
    + destruct next as [[]|]; try discriminate Hn.
      destruct (exit_keeps st) as [Hf _]. congruence.
    + rewrite Scene_MenuBase_terminate_inside by assumption.
      repeat split. exists []. now rewrite app_nil_r.
Qed.

Lemma active_history hs st0 :
  _menuMusicActive st0 = false ->
  _menuMusicActive (calls parameters hs st0) = true ->
  exists hs1 hs2 more,
    hs = hs1 ++ Menu_start :: hs2
    /\ JS.truthy_string (menuMusic parameters) = true
    /\ _menuMusicActive (calls parameters hs1 st0) = false
    /\ trace (calls parameters hs st0)
       = trace (calls parameters hs1 st0)
           ++ [Audio StopBgm; menu_track parameters] ++ more
    /\ commands more = []
    /\ existsb is_exit hs2 = false
    /\ _currentBgm (calls parameters hs st0) = Some (menu_bgm parameters).
Proof.
  intros H0. induction hs as [|h hs IH] using rev_ind; intros H.
  - simpl in H. congruence.
  - rewrite calls_snoc in *.
    destruct (_menuMusicActive (calls parameters hs st0)) eqn:Ha.
    + destruct (IH eq_refl) as (hs1 & hs2 & more & E & Hm & H1 & H2 & H3 & H4 & H5).
      destruct (call_keeps h _ Ha H) as (K1 & K2 & more' & K3 & K4).
      exists hs1, (hs2 ++ [h]), (more ++ more'). repeat split; try assumption.
      * rewrite E, <- app_assoc. reflexivity.
      * rewrite K3, H2, <- !app_assoc. reflexivity.
      * unfold commands in *. now rewrite List.filter_app, H3, K4.
      * rewrite existsb_app, H4. simpl. now rewrite K1.
      * congruence.
    + destruct (call_raises h _ Ha H) as (-> & Hm & K1 & K2).
      exists hs, [], []. repeat split; try assumption.
Qed.

End Active.

(** C5: in every state reached from the initial one by hooks called in
    any order, if the menu music is active then a menu track is
    configured, an earlier start hook found it inactive and issued the stop
    and the play of the menu track, and since then no hook has left the
    menus for the map and nothing was commanded after the play. *)
Theorem active_between_start_and_exit
    (parameters : gmap string string) (scene : SceneClass) (bgm : option Bgm)
    (hs : list Hook) :
  _menuMusicActive (calls parameters hs (initial scene bgm)) = true ->
  exists hs1 hs2 more,
    hs = hs1 ++ Menu_start :: hs2
    /\ JS.truthy_string (menuMusic parameters) = true
    /\ _menuMusicActive (calls parameters hs1 (initial scene bgm)) = false
    /\ trace (calls parameters hs (initial scene bgm))
       = trace (calls parameters hs1 (initial scene bgm))
           ++ [Audio StopBgm; menu_track parameters] ++ more
    /\ commands more = []
    /\ existsb is_exit hs2 = false.
Proof.
  intros H.
  destruct (active_history parameters hs (initial scene bgm) eq_refl H)
    as (hs1 & hs2 & more & H1 & H2 & H3 & H4 & H5 & H6 & _).
  exists hs1, hs2, more. repeat split; assumption.
Qed.

Lemma active_between_start_and_exit_witness :
  let hs := [Map_terminate (Some Scene_Menu); Menu_start;
             MenuBase_terminate (Some Scene_Item)] in
  exists hs1 hs2 more,
    hs = hs1 ++ Menu_start :: hs2
    /\ JS.truthy_string (menuMusic theme1) = true
    /\ _menuMusicActive (calls theme1 hs1 (initial Scene_Map None)) = false
    /\ trace (calls theme1 hs (initial Scene_Map None))
       = trace (calls theme1 hs1 (initial Scene_Map None))
           ++ [Audio StopBgm; menu_track theme1] ++ more
    /\ commands more = []
    /\ existsb is_exit hs2 = false.
Proof.
  apply (active_between_start_and_exit theme1 Scene_Map None
           [Map_terminate (Some Scene_Menu); Menu_start;
            MenuBase_terminate (Some Scene_Item)]).
  vm_compute. reflexivity.
Defined.

(** * Further properties of the menu music *)

Section More_sessions.

Variable parameters : gmap string string.

(** From the map into the menu scenes [c :: ms]. *)
Lemma leave_map c ms st :
  _scene st = Scene_Map ->
  forallb extends_Scene_MenuBase (c :: ms) = true ->
  let st' := changeScenes parameters (c :: ms) st in
  let go := starts parameters (_menuMusicActive st) (c :: ms) in
  extends_Scene_MenuBase (_scene st') = true
  /\ _currentMapBgm st' = _currentBgm st
  /\ _menuMusicActive st' = _menuMusicActive st || go
  /\ _currentBgm st' = (if go then Some (menu_bgm parameters) else _currentBgm st)
  /\ exists inside,
       trace st' = trace st ++ Audio SaveBgm :: inside
       /\ commands inside
          = if go then [Audio StopBgm; menu_track parameters] else [].
Proof.
  intros Hs Hms.
  assert (Hc : extends_Scene_MenuBase c = true)
    by (simpl in Hms; now apply andb_prop in Hms as [Hc _]).
  cbv zeta. rewrite (changeScenes_cons parameters c ms).
  rewrite (changeScene_from_map parameters c st) by assumption.
  set (st1 := set_currentMapBgm (_currentBgm st) (log (Audio SaveBgm) st)).
  assert (E : enter parameters c st1
              = changeScene parameters c (set_scene c st1))
    by (now rewrite changeScene_inside).
  rewrite E, <- changeScenes_cons.
  destruct (changeScenes_inside parameters (c :: ms) (set_scene c st1))
    as (H1 & H2 & H3 & H4 & inside & H5 & _ & H7); [assumption..|].
  remember (changeScenes parameters (c :: ms) (set_scene c st1)) as st2 eqn:E2.
  simpl in H2, H3, H4, H5, H7.
  repeat split; try assumption.
  exists inside. split; [|assumption].
  rewrite H5, <- app_assoc. reflexivity.
Qed.

End More_sessions.

(** X1: after any menu session that starts on the map, the device plays
    what it played when the map was left, track and position, whatever
    snapshot was held before; the snapshot holds that track, the flag is
    down, and the track was resumed at most once, from the snapshot, and
    exactly when the flag was up at the exit. *)
Theorem session_restores_device
    (parameters : gmap string string) (c : SceneClass) (ms : list SceneClass)
    (st : State) :
  _scene st = Scene_Map ->
  forallb extends_Scene_MenuBase (c :: ms) = true ->
  let st' := session parameters (c :: ms) st in
  _scene st' = Scene_Map
  /\ _currentBgm st' = _currentBgm st
  /\ _currentMapBgm st' = _currentBgm st
  /\ _menuMusicActive st' = false
  /\ exists issued,
       trace st' = trace st ++ issued
       /\ List.filter is_replay issued
          = if _menuMusicActive st
               || starts parameters (_menuMusicActive st) (c :: ms)
            then match _currentBgm st with
                 | Some bgm => [Audio (ReplayBgm bgm)]
                 | None => []
                 end
            else [].
Proof.
  intros Hs Hms.
  destruct (session_facts parameters (c :: ms) st Hs)
    as (H1 & H2 & H3 & H4 & inside & H5 & H6 & _);
    [discriminate | assumption |].
  cbv zeta. repeat split; try assumption.
  eexists. split; [exact H5|].
  assert (Hi : List.filter is_replay inside = []).
  { clear - H6. induction inside as [|e inside IH]; [reflexivity|].
    simpl in H6. apply andb_prop in H6 as [He H6]. simpl.
    rewrite (IH H6). destruct e as [[| | |]|]; try reflexivity. discriminate He. }
  rewrite !List.filter_app, Hi. simpl.
  destruct (_menuMusicActive st || _); simpl; [|reflexivity].
  now destruct (_currentBgm st).
Qed.

Lemma session_restores_device_witness :
  let st := on_map (Some (field (JS.of_Z 90) (JS.of_Z 100) (JS.of_Z 0))) in
  let st' := session theme1 [Scene_Menu; Scene_Item; Scene_Menu] st in
  _scene st' = Scene_Map
  /\ _currentBgm st' = _currentBgm st
  /\ _currentMapBgm st' = _currentBgm st
  /\ _menuMusicActive st' = false
  /\ exists issued,
       trace st' = trace st ++ issued
       /\ List.filter is_replay issued
          = if _menuMusicActive st
               || starts theme1 (_menuMusicActive st) [Scene_Menu; Scene_Item; Scene_Menu]
            then match _currentBgm st with
                 | Some bgm => [Audio (ReplayBgm bgm)]
                 | None => []
                 end
            else [].
Proof.
  apply (session_restores_device theme1 Scene_Menu [Scene_Item; Scene_Menu]
           (on_map (Some (field (JS.of_Z 90) (JS.of_Z 100) (JS.of_Z 0)))));
    reflexivity.
Defined.

(** X2: leaving the menus for a scene that is neither a menu nor the map
    (the title screen, a battle) restores nothing: no stop and no resume
    is issued, the menu track keeps playing if it was started, and the flag
    stays up, also once the map is the active scene again. *)
Theorem leaving_elsewhere_keeps_menu_music
    (parameters : gmap string string) (c out : SceneClass)
    (ms : list SceneClass) (st : State) :
  _scene st = Scene_Map ->
  forallb extends_Scene_MenuBase (c :: ms) = true ->
  elsewhere out = true ->
  let go := starts parameters (_menuMusicActive st) (c :: ms) in
  let st' := changeScenes parameters ((c :: ms) ++ [out]) st in
  let st'' := changeScene parameters Scene_Map st' in
  _menuMusicActive st' = _menuMusicActive st || go
  /\ _currentBgm st' = (if go then Some (menu_bgm parameters) else _currentBgm st)
  /\ (exists issued,
        trace st' = trace st ++ issued
        /\ commands issued
           = if go then [Audio StopBgm; menu_track parameters] else [])
  /\ _scene st'' = Scene_Map
  /\ _menuMusicActive st'' = _menuMusicActive st'
  /\ _currentBgm st'' = _currentBgm st'
  /\ commands (trace st'') = commands (trace st').
Proof.
  intros Hs Hms Hout.
  destruct (leave_map parameters c ms st Hs Hms)
    as (H1 & H2 & H3 & H4 & inside & H5 & H6).
  cbv zeta. rewrite changeScenes_app, changeScenes_one.
  remember (changeScenes parameters (c :: ms) st) as st1 eqn:E1.
  assert (E : changeScene parameters out st1
              = log (Activated out) (set_scene out st1)).
  { unfold changeScene, terminate.
    rewrite H1, Scene_MenuBase_terminate_inside
      by (destruct out; easy).
    destruct (_scene st1); try discriminate H1;
      destruct out; try discriminate Hout; reflexivity. }
  rewrite E.
  assert (E' : changeScene parameters Scene_Map (log (Activated out) (set_scene out st1))
               = log (Activated Scene_Map)
                   (set_scene Scene_Map (log (Activated out) (set_scene out st1)))).
  { unfold changeScene, terminate. simpl _scene.
    destruct out; try discriminate Hout; reflexivity. }
  rewrite E'.
  cbn [_scene _currentBgm _currentMapBgm _menuMusicActive trace log set_scene].
  repeat split; try assumption.
  - eexists. split; [rewrite H5, <- app_assoc; reflexivity|].
    change (Audio SaveBgm :: inside) with ([Audio SaveBgm] ++ inside).
    rewrite !commands_app, H6. simpl. apply app_nil_r.
  - rewrite commands_app. simpl. apply app_nil_r.
Qed.

Lemma leaving_elsewhere_keeps_menu_music_witness :
  let st := on_map None in
  let go := starts theme1 (_menuMusicActive st) [Scene_Menu; Scene_GameEnd] in
  let st' := changeScenes theme1 ([Scene_Menu; Scene_GameEnd] ++ [Scene_Title]) st in
  let st'' := changeScene theme1 Scene_Map st' in
  _menuMusicActive st' = _menuMusicActive st || go
  /\ _currentBgm st' = (if go then Some (menu_bgm theme1) else _currentBgm st)
  /\ (exists issued,
        trace st' = trace st ++ issued
        /\ commands issued
           = if go then [Audio StopBgm; menu_track theme1] else [])
  /\ _scene st'' = Scene_Map
  /\ _menuMusicActive st'' = _menuMusicActive st'
  /\ _currentBgm st'' = _currentBgm st'
  /\ commands (trace st'') = commands (trace st').
Proof.
  apply (leaving_elsewhere_keeps_menu_music theme1 Scene_Menu Scene_Title
           [Scene_GameEnd] (on_map None)); reflexivity.
Defined.

(** X3: a session that starts with the flag still up never plays the
    menu track: its only playback calls are the stop and the resume of the
    exit. *)
Theorem stale_flag_mutes_menu_track
    (parameters : gmap string string) (c : SceneClass) (ms : list SceneClass)
    (st : State) :
  _scene st = Scene_Map ->
  _menuMusicActive st = true ->
  forallb extends_Scene_MenuBase (c :: ms) = true ->
  exists issued,
    trace (session parameters (c :: ms) st) = trace st ++ issued
    /\ commands issued = restore true (_currentBgm st)
    /\ existsb is_play issued = false.
Proof.
  intros Hs Ha Hms.
  destruct (session_facts parameters (c :: ms) st Hs)
    as (_ & _ & _ & _ & inside & H5 & H6 & H7);
    [discriminate | assumption |].
  rewrite Ha in H5, H7. unfold starts in H7. simpl in H5, H7.
  eexists. split; [exact H5|].
  assert (Hp : existsb is_play inside = false).
  { clear - H7. induction inside as [|e inside IH]; [reflexivity|].
    destruct e as [[| | |]|]; simpl in *; try discriminate H7; auto. }
  split.
  - change (Audio SaveBgm :: ?l) with ([Audio SaveBgm] ++ l).
    rewrite !commands_app, H7. simpl.
    now destruct (_currentBgm st).
  - change (Audio SaveBgm :: ?l) with ([Audio SaveBgm] ++ l).
    rewrite !existsb_app, Hp. simpl. now destruct (_currentBgm st).
Qed.

Lemma stale_flag_mutes_menu_track_witness :
  let st := changeScenes theme1 [Scene_Menu; Scene_Title; Scene_Map] (on_map None) in
  exists issued,
    trace (session theme1 [Scene_Menu] st) = trace st ++ issued
    /\ commands issued = restore true (_currentBgm st)
    /\ existsb is_play issued = false.
Proof.
  apply (stale_flag_mutes_menu_track theme1 Scene_Menu []
           (changeScenes theme1 [Scene_Menu; Scene_Title; Scene_Map] (on_map None)));
    reflexivity.
Defined.

(** * Counting the calls *)

Section Counting.

Variable parameters : gmap string string.

Lemma count_app p t1 t2 : count p (t1 ++ t2) = (count p t1 + count p t2)%nat.
Proof. unfold count. now rewrite List.filter_app, length_app. Qed.

Lemma call_balanced h st : balanced st -> balanced (call parameters h st).
Proof.
  unfold balanced, up. intros [H1 H2].
  destruct h as [next| |next]; simpl;
    unfold Scene_Map_terminate, Scene_Menu_start, Scene_MenuBase_terminate;
    destruct (_menuMusicActive st) eqn:Ha;
    try destruct (instanceof_Scene_MenuBase next);
    try destruct (JS.truthy_string (menuMusic parameters));
    try destruct (instanceof_Scene_Map next);
    try destruct (_currentMapBgm st) eqn:Hs;
    simpl; rewrite ?Ha, ?Hs in *; simpl; unfold count in *;
    rewrite ?List.filter_app, ?length_app; simpl; split; lia.
Qed.

Lemma calls_balanced hs st : balanced st -> balanced (calls parameters hs st).
Proof.
  revert st. induction hs as [|h hs IH]; intros st H; [exact H|].
  apply (IH (call parameters h st)), call_balanced, H.
Qed.

End Counting.

(** X4: whatever hooks are called from the initial state, every play of
    the menu track has a stop before it and, once the flag is down again,
    exactly one stop after it: there are twice as many stops as plays, less
    one while the flag is up; and the resumes never outnumber the plays
    whose flag is down again. *)
Theorem stops_bracket_plays
    (parameters : gmap string string) (scene : SceneClass) (bgm : option Bgm)
    (hs : list Hook) :
  let st := calls parameters hs (initial scene bgm) in
  (count is_stop (trace st) + up st = 2 * count is_play (trace st))%nat
  /\ (count is_replay (trace st) + up st <= count is_play (trace st))%nat.
Proof.
  apply (calls_balanced parameters hs (initial scene bgm)).
  unfold balanced, up, count. simpl. split; lia.
Qed.

(** X5: terminating menu scenes twice for the same next scene restores at
    most once: the second call changes nothing. *)
Theorem exit_twice_restores_once (next : option SceneClass) (st : State) :
  Scene_MenuBase_terminate next (Scene_MenuBase_terminate next st)
  = Scene_MenuBase_terminate next st.
Proof.
  destruct (instanceof_Scene_Map next) eqn:Hn.
  - apply Scene_MenuBase_terminate_inactive.
    destruct next as [[]|]; try discriminate Hn. apply exit_keeps.
  - now rewrite !Scene_MenuBase_terminate_inside.
Qed.

(** * More binary64 arithmetic *)

Section Binary64_more.

Local Abbreviation fexp := (SpecFloat.fexp JS.prec JS.emax).

(** Subtraction of safe integers with a safe difference is exact. *)
Lemma sub_of_Z a b :
  safe a -> safe b -> safe (a - b) ->
  JS.sub (JS.of_Z a) (JS.of_Z b) = JS.of_Z (a - b).
Proof.
  intros Ha Hb Hab.
  destruct (Z.eq_dec b 0) as [->|Hnb].
  { rewrite Z.sub_0_r. destruct (Z.eq_dec a 0) as [->|Hna]; [reflexivity|].
    destruct (of_Z_finite a Ha Hna) as (k & _ & ->). reflexivity. }
  destruct (Z.eq_dec a 0) as [->|Hna].
  { rewrite Z.sub_0_l.
    assert (Hb' : safe (- b)) by (unfold safe in *; lia).
    destruct (of_Z_finite b Hb Hnb) as (k & Hk & ->).
    destruct (of_Z_finite (- b) Hb') as (k' & Hk' & ->); [lia|].
    assert (k' = k) as -> by lia.
    unfold JS.sub, SFsub. f_equal.
    destruct (Z.ltb_spec b 0), (Z.ltb_spec (- b) 0); simpl; try reflexivity; lia. }
  destruct (of_Z_finite a Ha Hna) as (ka & Hka & ->).
  destruct (of_Z_finite b Hb Hnb) as (kb & Hkb & ->).
  unfold safe in Ha, Hb.
  unfold JS.sub, SFsub.
  set (ez := Z.min (expo ka) (expo kb)).
  rewrite !aligned by (unfold ez; lia).
  rewrite (cond_Zopp_abs a ka Hka), (cond_Zopp_abs b kb Hkb).
  rewrite <- Z.mul_sub_distr_r.
  replace ez with (- - ez) at 2 by lia.
  apply normalize_scaled; [assumption|].
  assert (Zpos (digits2_pos ka) <= 53) by (apply safe_digits; lia).
  unfold ez, expo. lia.
Qed.

(** Multiplication by a nonnegative safe integer, zero included. *)
Lemma mul_of_Z_nonneg a b :
  0 <= a -> 0 < b -> safe b -> safe (a * b) ->
  JS.mul (JS.of_Z a) (JS.of_Z b) = JS.of_Z (a * b).
Proof.
  intros Ha Hb Sb Hab.
  destruct (Z.eq_dec a 0) as [->|Hna].
  - destruct (of_Z_finite b Sb) as (k & _ & E); [lia|].
    rewrite E. replace (b <? 0) with false by (symmetry; apply Z.ltb_ge; lia).
    reflexivity.
  - apply mul_of_Z; try assumption; lia.
Qed.

Lemma canonic_bounds m e :
  canonic m e -> Zpos (digits2_pos m) <= 53 /\ -1074 <= e <= 971.
Proof.
  unfold canonic, SpecFloat.fexp, emin, JS.prec, JS.emax. lia.
Qed.

(** Multiplication by a power of two, [2^k] with [0 <= k <= 52], is
    exact. *)
Lemma mul_pow2 s m e k :
  canonic m e -> 0 <= k <= 52 ->
  let f := fexp (Zpos (digits2_pos m) + (e + k)) in
  f <= JS.emax - JS.prec ->
  JS.mul (S754_finite s m e) (S754_finite false 4503599627370496 (k - 52))
  = S754_finite s (shl m (e + k - f)) f
  /\ JS.mul (S754_finite false 4503599627370496 (k - 52)) (S754_finite s m e)
     = S754_finite s (shl m (e + k - f)) f
  /\ canonic (shl m (e + k - f)) f.
Proof.
  intros Hc Hk f Hf. pose proof (canonic_bounds m e Hc) as [Hd He].
  assert (Ha : 0 <= e + k - f /\ e + k - 52 <= f).
  { unfold f, SpecFloat.fexp, emin, JS.prec, JS.emax. lia. }
  assert (Hcan : canonic (shl m (e + k - f)) f).
  { replace f with ((e + k) - (e + k - f)) at 2 by lia.
    apply canonic_shl; [lia | fold f; lia | lia]. }
  assert (Hm : (m * 4503599627370496)%positive
               = shl (shl m (e + k - f)) (52 - (e + k - f))).
  { apply Pos2Z.inj. rewrite Pos2Z.inj_mul, shl_shl by lia.
    rewrite shl_Z by lia.
    replace (e + k - f + (52 - (e + k - f))) with 52 by lia. reflexivity. }
  assert (Hr : binary_round_aux JS.prec JS.emax s
                 (Zpos (m * 4503599627370496)) (e + (k - 52)) loc_Exact
               = S754_finite s (shl m (e + k - f)) f).
  { rewrite Hm.
    replace (e + (k - 52)) with (f - (52 - (e + k - f))) by lia.
    apply round_shifted; [assumption | lia]. }
  split; [|split; [|assumption]].
  - unfold JS.mul, SFmul. rewrite xorb_false_r. exact Hr.
  - unfold JS.mul, SFmul. rewrite xorb_false_l, Pos.mul_comm, Z.add_comm. exact Hr.
Qed.

(** [Math.floor] of a positive number below [2^52]. *)
Lemma floor_fraction m e :
  e < 0 -> JS.floor (S754_finite false m e) = JS.of_Z (Zpos m / 2 ^ (- e)).
Proof.
  intros He. unfold JS.floor.
  replace (0 <=? e) with false by (symmetry; apply Z.leb_gt; lia).
  simpl cond_Zopp. rewrite Z.shiftr_div_pow2 by lia. reflexivity.
Qed.

(** [Math.floor(r * 8)] is one of 0, ..., 7 when [0 <= r < 1]. *)
Lemma floor_times_8 r :
  unit_interval r = true ->
  exists k, 0 <= k <= 7 /\ JS.floor (JS.mul r (JS.of_Z 8)) = JS.of_Z k.
Proof.
  destruct r as [[|]|s| |[|] m e];
    try (intros H; discriminate H).
  - intros _. exists 0. split; [lia | reflexivity].
  - unfold unit_interval. intros H. apply andb_prop in H as [Hv Hlt].
    unfold valid_binary, bounded, canonical_mantissa in Hv.
    apply andb_prop in Hv as [Hc Hb].
    apply Z.eqb_eq in Hc. apply Z.leb_le in Hb.
    assert (Hcan : canonic m e) by (split; assumption).
    pose proof (canonic_bounds m e Hcan) as [Hd He].
    assert (He' : e <= -53).
    { unfold JS.lt, SFltb in Hlt.
      change (JS.of_Z 1) with (S754_finite false 4503599627370496 (-52)) in Hlt.
      unfold SFcompare in Hlt.
      destruct (Z.compare_spec e (-52)) as [E|E|E]; [| lia | discriminate Hlt].
      rewrite Pos.compare_cont_spec in Hlt.
      destruct (Pos.compare_spec m 4503599627370496) as [Hm|Hm|Hm];
        try discriminate Hlt.
      assert (Zpos (digits2_pos m) <= 52).
      { apply Pos2Z.pos_lt_pos in Hm. clear - Hm.
        pose proof (digits2_bounds m) as [Hl _].
        destruct (Z.le_gt_cases (Zpos (digits2_pos m)) 52) as [|Hgt]; [assumption|].
        assert (2 ^ 52 <= 2 ^ (Zpos (digits2_pos m) - 1))
          by (apply Z.pow_le_mono_r; lia).
        change (2 ^ 52) with 4503599627370496 in *. lia. }
      clear Hlt Hm. unfold SpecFloat.fexp, emin, JS.prec, JS.emax in Hc. lia. }
    clear Hlt. unfold SpecFloat.fexp, emin, JS.prec, JS.emax in Hc.
    change (JS.of_Z 8) with (S754_finite false 4503599627370496 (3 - 52)).
    destruct (mul_pow2 false m e 3 Hcan) as (-> & _ & _); [lia | |].
    { unfold SpecFloat.fexp, emin, JS.prec, JS.emax. lia. }
    set (f := fexp (Zpos (digits2_pos m) + (e + 3))).
    assert (Hf : e <= f /\ f <= e + 3 /\ Zpos (digits2_pos m) + e + 3 - 53 <= f)
      by (unfold f, SpecFloat.fexp, emin, JS.prec, JS.emax; lia).
    rewrite floor_fraction by lia.
    eexists. split; [|reflexivity].
    rewrite shl_Z by lia.
    pose proof (digits2_bounds m) as [_ Hu].
    assert (Hp : Zpos m * 2 ^ (e + 3 - f) < 8 * 2 ^ (- f)).
    { assert (2 ^ Zpos (digits2_pos m) * 2 ^ (e + 3 - f) <= 2 ^ 3 * 2 ^ (- f)).
      { rewrite <- !Z.pow_add_r by lia. apply Z.pow_le_mono_r; lia. }
      assert (0 < 2 ^ (e + 3 - f)) by (apply Z.pow_pos_nonneg; lia).
      change (2 ^ 3) with 8 in *. nia. }
    assert (0 < 2 ^ (- f)) by (apply Z.pow_pos_nonneg; lia).
    split.
    + apply Z.div_pos; [|assumption].
      apply Z.mul_nonneg_nonneg; [lia|]. apply Z.pow_nonneg. lia.
    + assert (Zpos m * 2 ^ (e + 3 - f) / 2 ^ (- f) < 8)
        by (apply Z.div_lt_upper_bound; lia).
      lia.
Qed.

End Binary64_more.

(** * The random portraits *)

Lemma fill_length random calls n : length (MenuStatus.fill random calls n) = n.
Proof.
  revert calls. induction n as [|n IH]; intros calls; simpl; [reflexivity|].
  now rewrite IH.
Qed.

Lemma fill_nth random calls n i :
  (i < n)%nat ->
  nth_error (MenuStatus.fill random calls n) i
  = Some (MenuStatus.randomFaceIndex (random (calls + i)%nat)).
Proof.
  revert calls i. induction n as [|n IH]; intros calls i Hi; [lia|].
  destruct i as [|i]; simpl.
  - now rewrite Nat.add_0_r.
  - rewrite IH by lia. do 3 f_equal. lia.
Qed.

Lemma fill_nth_none random calls n i :
  (n <= i)%nat -> nth_error (MenuStatus.fill random calls n) i = None.
Proof.
  intros Hi. apply nth_error_None. now rewrite fill_length.
Qed.

(** The column and the row of the face number [k] of a sheet. *)
Lemma cell_of_index k :
  0 <= k <= 7 ->
  JS.rem (JS.of_Z k) (JS.of_Z 4) = JS.of_Z (k mod 4)
  /\ JS.floor (JS.div (JS.of_Z k) (JS.of_Z 4)) = JS.of_Z (k / 4)
  /\ JS.or_number (JS.of_Z k) (JS.of_Z 0) = JS.of_Z k.
Proof.
  intros Hk.
  assert (H : k = 0 \/ k = 1 \/ k = 2 \/ k = 3 \/ k = 4 \/ k = 5 \/ k = 6 \/ k = 7)
    by lia.
  repeat (destruct H as [->|H]); try subst k; repeat split; vm_compute; reflexivity.
Qed.

Lemma random_faces_are_faces_aux
    (partySize : nat) (random : nat -> JS.number) (calls : nat) :
  (forall k, unit_interval (random k) = true) ->
  forall i, (i < partySize)%nat ->
    exists k, 0 <= k <= 7
      /\ nth_error (fst (MenuStatus.randomizeFaceIndices partySize random calls)) i
         = Some (JS.of_Z k).
Proof.
  intros Hr i Hi. simpl. rewrite fill_nth by assumption.
  destruct (floor_times_8 (random (calls + i)%nat) (Hr _)) as (k & Hk & E).
  exists k. split; [assumption|]. unfold MenuStatus.randomFaceIndex. now rewrite E.
Qed.

(** X6: whatever [Math.random()] returns, [randomizeFaceIndices] fills
    the array with one entry for each party member, each of them one of
    the face numbers 0, ..., 7, and calls [Math.random()] once for each. *)
Theorem random_faces_are_faces
    (partySize : nat) (random : nat -> JS.number) (calls : nat) :
  (forall k, unit_interval (random k) = true) ->
  let faces := fst (MenuStatus.randomizeFaceIndices partySize random calls) in
  length faces = partySize
  /\ snd (MenuStatus.randomizeFaceIndices partySize random calls)
     = (calls + partySize)%nat
  /\ forall i, (i < partySize)%nat ->
       exists k, 0 <= k <= 7 /\ nth_error faces i = Some (JS.of_Z k).
Proof.
  intros Hr. cbv zeta. split; [apply fill_length|]. split; [reflexivity|].
  apply random_faces_are_faces_aux. assumption.
Qed.

Lemma random_faces_are_faces_witness :
  let random := fun k : nat =>
    if Nat.even k then JS.Number (Some "0.99") else JS.Number (Some "0.3") in
  let faces := fst (MenuStatus.randomizeFaceIndices 3 random 5) in
  length faces = 3%nat
  /\ snd (MenuStatus.randomizeFaceIndices 3 random 5) = (5 + 3)%nat
  /\ forall i, (i < 3)%nat ->
       exists k, 0 <= k <= 7 /\ nth_error faces i = Some (JS.of_Z k).
Proof.
  apply (random_faces_are_faces 3
           (fun k : nat =>
              if Nat.even k then JS.Number (Some "0.99") else JS.Number (Some "0.3"))
           5).
  intros k. destruct (Nat.even k); vm_compute; reflexivity.
Defined.



(** * Division and [Math.floor] *)

Section Binary64_division.

Local Abbreviation fexp := (SpecFloat.fexp JS.prec JS.emax).

Lemma shr_m_of_loc m l : shr_m (shr_record_of_loc m l) = m.
Proof. now destruct l as [|[]]. Qed.

Lemma shr_1_half mrs : 0 <= shr_m mrs -> shr_m (shr_1 mrs) = shr_m mrs / 2.
Proof.
  destruct mrs as [m r s]. simpl. intros Hm.
  destruct m as [|[p|p|]|p]; simpl; try reflexivity; try lia.
  - rewrite Pos2Z.inj_xI. apply (Z.div_unique _ _ _ 1); lia.
  - rewrite Pos2Z.inj_xO. apply (Z.div_unique _ _ _ 0); lia.
Qed.

Lemma round_nearest_even_bracket m l :
  round_nearest_even m l = m \/ round_nearest_even m l = m + 1.
Proof.
  destruct l as [|[]]; simpl; auto. destruct (Z.even m); auto.
Qed.

Lemma round_aux_finish s m e l :
  binary_round_aux JS.prec JS.emax s m e l
  = finish s
      (round_nearest_even (shr_m (fst (shr_fexp JS.prec JS.emax m e l)))
         (loc_of_shr_record (fst (shr_fexp JS.prec JS.emax m e l))))
      (snd (shr_fexp JS.prec JS.emax m e l)).
Proof.
  unfold binary_round_aux, finish.
  now destruct (shr_fexp JS.prec JS.emax m e l).
Qed.

Lemma finish_canonic s m e : canonic m e -> finish s (Zpos m) e = S754_finite s m e.
Proof.
  intros Hc. unfold finish. rewrite (shr_fexp_canonic _ _ Hc).
  change (shr_m (exact (Zpos m))) with (Zpos m). cbv iota beta.
  destruct Hc as [_ He]. apply Z.leb_le in He. now rewrite He.
Qed.

Lemma finish_carry s e :
  -1074 <= e -> e + 1 <= 971 ->
  finish s (2 ^ 53) e = S754_finite s 4503599627370496 (e + 1).
Proof.
  intros H1 H2. unfold finish, shr_fexp.
  change (Zdigits2 (2 ^ 53)) with 54.
  replace (fexp (54 + e) - e) with 1
    by (unfold SpecFloat.fexp, emin, JS.prec, JS.emax; lia).
  change (shr_record_of_loc (2 ^ 53) loc_Exact) with (exact (2 ^ 53)).
  unfold shr. simpl SpecFloat.iter_pos. cbv iota beta.
  change (shr_m (shr_1 (exact (2 ^ 53)))) with (Zpos 4503599627370496).
  cbv iota beta.
  replace (e + 1 <=? JS.emax - JS.prec) with true; [reflexivity|].
  symmetry. apply Z.leb_le. unfold JS.prec, JS.emax. lia.
Qed.

(** Rounding a mantissa of 53 or 54 digits: the result is canonical, and
    it is the mantissa cut to 53 digits, or one more. *)
Lemma round_bracket s q e l :
  let p := Zpos (digits2_pos q) - 53 in
  0 <= p <= 1 -> -1074 <= e + p -> e + p + 1 <= 971 ->
  exists M e2,
    binary_round_aux JS.prec JS.emax s (Zpos q) e l = S754_finite s M e2
    /\ canonic M e2
    /\ Zpos (digits2_pos M) = 53
    /\ e + p <= e2
    /\ (Zpos M * 2 ^ (e2 - (e + p)) = Zpos q / 2 ^ p
        \/ Zpos M * 2 ^ (e2 - (e + p)) = Zpos q / 2 ^ p + 1).
Proof.
  intros p Hp H1 H2. rewrite round_aux_finish.
  pose proof (digits2_bounds q) as [Hl Hu].
  assert (Hs : shr_fexp JS.prec JS.emax (Zpos q) e l
               = shr (shr_record_of_loc (Zpos q) l) e p).
  { unfold shr_fexp. simpl Zdigits2. f_equal.
    unfold p, SpecFloat.fexp, emin, JS.prec, JS.emax. lia. }
  rewrite Hs.
  set (mrs := fst (shr (shr_record_of_loc (Zpos q) l) e p)).
  assert (HT : shr_m mrs = Zpos q / 2 ^ p
               /\ snd (shr (shr_record_of_loc (Zpos q) l) e p) = e + p).
  { unfold mrs. destruct (Z.eq_dec p 0) as [E0|E0].
    - rewrite E0. simpl. rewrite shr_m_of_loc, Z.div_1_r. split; [reflexivity|lia].
    - replace p with 1 by lia. simpl.
      rewrite shr_1_half by (rewrite shr_m_of_loc; lia).
      rewrite shr_m_of_loc. split; reflexivity. }
  destruct HT as [HT ->].
  set (T := Zpos q / 2 ^ p) in *.
  assert (HTb : 2 ^ 52 <= T < 2 ^ 53).
  { unfold T. destruct (Z.eq_dec p 0) as [E0|E0].
    - rewrite E0, Z.div_1_r. replace (Zpos (digits2_pos q)) with 53 in * by lia.
      change (53 - 1) with 52 in Hl. lia.
    - replace p with 1 by lia. replace (Zpos (digits2_pos q)) with 54 in * by lia.
      change (54 - 1) with 53 in Hl. change (2 ^ 1) with 2.
      split.
      + apply Z.div_le_lower_bound; lia.
      + apply Z.div_lt_upper_bound; lia. }
  destruct (round_nearest_even_bracket (shr_m mrs) (loc_of_shr_record mrs))
    as [E|E]; rewrite E, HT.
  - destruct T as [|t|t] eqn:ET; try lia.
    assert (Hd : Zpos (digits2_pos t) = 53)
      by (apply digits2_unique; change (53 - 1) with 52; lia).
    assert (Hc : canonic t (e + p)).
    { split; [|unfold JS.prec, JS.emax; lia].
      rewrite Hd. unfold SpecFloat.fexp, emin, JS.prec, JS.emax. lia. }
    exists t, (e + p). rewrite finish_canonic by assumption.
    repeat split; try assumption; try apply Hc; try lia.
    left. rewrite Z.sub_diag. lia.
  - destruct (Z.eq_dec (T + 1) (2 ^ 53)) as [Ec|Ec].
    + rewrite Ec, finish_carry by lia.
      exists 4503599627370496%positive, (e + p + 1).
      repeat split; try reflexivity; try lia.
      * unfold SpecFloat.fexp, emin, JS.prec, JS.emax. simpl digits2_pos. lia.
      * unfold JS.prec, JS.emax. lia.
      * right. replace (e + p + 1 - (e + p)) with 1 by lia. reflexivity.
    + destruct (T + 1) as [|t|t] eqn:ET; try lia.
      assert (Hd : Zpos (digits2_pos t) = 53)
        by (apply digits2_unique; change (53 - 1) with 52; lia).
      assert (Hc : canonic t (e + p)).
      { split; [|unfold JS.prec, JS.emax; lia].
        rewrite Hd. unfold SpecFloat.fexp, emin, JS.prec, JS.emax. lia. }
      exists t, (e + p). rewrite finish_canonic by assumption.
      repeat split; try assumption; try apply Hc; try lia.
      right. rewrite Z.sub_diag. lia.
Qed.

Lemma digits2_mant k : Zpos k < 2 ^ 53 -> Zpos (digits2_pos (mant k)) = 53.
Proof.
  intros H. pose proof (safe_digits k H). unfold mant.
  rewrite digits2_shl by lia. lia.
Qed.

(** The quotient of two positive safe integers [a] and [b]: a canonical
    number whose mantissa is [a * 2^j / b] cut to an integer, or one more,
    where [2^-j] is the weight of its last digit. *)
Lemma div_of_Z_bracket a b :
  Zpos a < 2 ^ 53 -> Zpos b < 2 ^ 53 ->
  exists M e2 p,
    JS.div (JS.of_Z (Zpos a)) (JS.of_Z (Zpos b)) = S754_finite false M e2
    /\ canonic M e2
    /\ Zpos (digits2_pos M) = 53
    /\ 0 <= p <= 1
    /\ let j := 53 - Zpos (digits2_pos a) + Zpos (digits2_pos b) - p in
       - j <= e2
       /\ (Zpos M * 2 ^ (e2 + j) = Zpos a * 2 ^ j / Zpos b
           \/ Zpos M * 2 ^ (e2 + j) = Zpos a * 2 ^ j / Zpos b + 1).
Proof.
  intros Ha Hb.
  pose proof (safe_digits a Ha) as Hda. pose proof (safe_digits b Hb) as Hdb.
  rewrite (of_Z_pos a Ha), (of_Z_pos b Hb).
  unfold JS.div, SFdiv, SFdiv_core_binary.
  simpl Zdigits2. rewrite (digits2_mant a Ha), (digits2_mant b Hb).
  replace (Z.min (fexp (53 + expo a - (53 + expo b))) (expo a - expo b))
    with (expo a - expo b - 53)
    by (unfold expo, SpecFloat.fexp, emin, JS.prec, JS.emax; lia).
  replace (expo a - expo b - (expo a - expo b - 53)) with 53 by lia.
  cbv iota beta. rewrite Z.shiftl_mul_pow2 by lia.
  pose proof (mant_Z a Ha) as Hma. pose proof (mant_Z b Hb) as Hmb.
  pose proof (digits2_bounds (mant a)) as [Hla Hua].
  pose proof (digits2_bounds (mant b)) as [Hlb Hub].
  rewrite (digits2_mant a Ha) in Hla, Hua. rewrite (digits2_mant b Hb) in Hlb, Hub.
  change (53 - 1) with 52 in *.
  destruct (Z.div_eucl (Zpos (mant a) * 2 ^ 53) (Zpos (mant b))) as [q r] eqn:Eq.
  assert (Hq : q = Zpos (mant a) * 2 ^ 53 / Zpos (mant b))
    by (unfold Z.div; now rewrite Eq).
  assert (Hqb : 2 ^ 52 <= q < 2 ^ 54).
  { rewrite Hq. split.
    - apply Z.div_le_lower_bound; lia.
    - apply Z.div_lt_upper_bound; lia. }
  destruct q as [|qp|qp]; try lia.
  set (p := Zpos (digits2_pos qp) - 53).
  assert (Hp : 0 <= p <= 1).
  { pose proof (digits2_bounds qp) as [Hlq Huq]. unfold p.
    destruct (Z.le_gt_cases 53 (Zpos (digits2_pos qp))) as [H53|H53].
    - destruct (Z.le_gt_cases (Zpos (digits2_pos qp)) 54) as [H54|H54]; [lia|].
      assert (2 ^ 54 <= 2 ^ (Zpos (digits2_pos qp) - 1))
        by (apply Z.pow_le_mono_r; lia).
      lia.
    - assert (2 ^ Zpos (digits2_pos qp) <= 2 ^ 52)
        by (apply Z.pow_le_mono_r; lia).
      lia. }
  destruct (round_bracket (xorb false false) qp (expo a - expo b - 53)
              (new_location (Zpos (mant b)) r))
    as (M & e2 & E & Hc & Hd & He & HV); fold p; try (unfold expo; lia).
  fold p in He, HV.
  exists M, e2, p. split; [exact E|]. split; [assumption|]. split; [assumption|].
  split; [assumption|]. cbv zeta.
  set (j := 53 - Zpos (digits2_pos a) + Zpos (digits2_pos b) - p).
  assert (Ej : expo a - expo b - 53 + p = - j) by (unfold j, expo; lia).
  rewrite Ej in He, HV. replace (e2 - - j) with (e2 + j) in HV by lia.
  split; [assumption|].
  assert (ET : Zpos qp / 2 ^ p = Zpos a * 2 ^ j / Zpos b).
  { rewrite Hq, Hma, Hmb.
    rewrite Z.div_div by (try apply Z.pow_pos_nonneg; lia).
    replace (Zpos a * 2 ^ (- expo a) * 2 ^ 53)
      with (Zpos a * 2 ^ j * 2 ^ (- expo b + p)).
    2:{ rewrite <- !Z.mul_assoc, <- !Z.pow_add_r by (unfold j, expo; lia).
        do 2 f_equal. unfold j, expo. lia. }
    replace (Zpos b * 2 ^ (- expo b) * 2 ^ p)
      with (Zpos b * 2 ^ (- expo b + p)).
    2:{ rewrite <- Z.mul_assoc, <- Z.pow_add_r by (unfold expo; lia). reflexivity. }
    apply Z.div_mul_cancel_r; [lia|].
    apply Z.pow_nonzero; unfold expo; lia. }
  rewrite <- ET. exact HV.
Qed.

(** A number between [k * n] and [(k + 1) * n] divided by [n]. *)
Lemma div_between v n k : 0 < n -> k * n <= v < (k + 1) * n -> v / n = k.
Proof.
  intros Hn H. symmetry. apply (Z.div_unique _ _ _ (v - k * n)); lia.
Qed.

(** [Math.floor(a / b)] is the integer quotient, and [Math.floor(2 * (a /
    b))] the integer quotient of [2 * a], for [0 <= a < 2^50] and a safe
    [b > 0]. *)
Lemma floor_div_of_Z a b :
  0 <= a < 2 ^ 50 -> 0 < b < 2 ^ 53 ->
  JS.floor (JS.div (JS.of_Z a) (JS.of_Z b)) = JS.of_Z (a / b)
  /\ JS.floor (JS.mul (JS.of_Z 2) (JS.div (JS.of_Z a) (JS.of_Z b)))
     = JS.of_Z (2 * a / b).
Proof.
  intros Ha Hb.
  destruct b as [|b|b]; try lia.
  destruct a as [|a|a]; try lia.
  { rewrite Z.mul_0_r, !Z.div_0_l by lia.
    rewrite (of_Z_pos b) by lia. split; reflexivity. }
  destruct (div_of_Z_bracket a b) as (M & e2 & p & E & Hc & Hd & Hp & Hj & HV);
    try lia.
  rewrite E. cbv zeta in Hj, HV.
  pose proof (digits2_bounds a) as [Hla Hua].
  pose proof (digits2_bounds b) as [Hlb Hub].
  assert (Hda : Zpos (digits2_pos a) <= 50).
  { destruct (Z.le_gt_cases (Zpos (digits2_pos a)) 50) as [|Hgt]; [assumption|].
    assert (2 ^ 50 <= 2 ^ (Zpos (digits2_pos a) - 1))
      by (apply Z.pow_le_mono_r; lia).
    lia. }
  set (j := 53 - Zpos (digits2_pos a) + Zpos (digits2_pos b) - p) in *.
  set (N := 2 ^ j). set (T := Zpos a * 2 ^ j / Zpos b) in *.
  assert (HN : 4 * Zpos b < N).
  { unfold N. replace j with (2 + Zpos (digits2_pos b) + (j - 2 - Zpos (digits2_pos b)))
      by lia.
    rewrite !Z.pow_add_r by (unfold j; lia). change (2 ^ 2) with 4.
    assert (1 <= 2 ^ (j - 2 - Zpos (digits2_pos b)))
      by (apply (Z.pow_le_mono_r 2 0); unfold j; lia).
    nia. }
  assert (HT1 : T * Zpos b <= Zpos a * N)
    by (unfold T, N; rewrite Z.mul_comm; apply Z.mul_div_le; lia).
  assert (HT2 : Zpos a * N < (T + 1) * Zpos b).
  { unfold T, N. pose proof (Z.mod_pos_bound (Zpos a * 2 ^ j) (Zpos b)).
    pose proof (Z.div_mod (Zpos a * 2 ^ j) (Zpos b)). lia. }
  assert (Hv : Zpos M * 2 ^ (e2 + j) = T \/ Zpos M * 2 ^ (e2 + j) = T + 1)
    by exact HV.
  assert (He2 : e2 + 1 < 0).
  { destruct (Z.lt_ge_cases (e2 + 1) 0) as [|Hge]; [assumption|].
    pose proof (digits2_bounds M) as [HlM _]. rewrite Hd in HlM.
    change (53 - 1) with 52 in HlM.
    assert (2 ^ (j - 1) <= 2 ^ (e2 + j)) by (apply Z.pow_le_mono_r; unfold j in *; lia).
    assert (N = 2 * 2 ^ (j - 1))
      by (unfold N; rewrite <- Z.pow_succ_r by (unfold j; lia); f_equal; lia).
    assert (2 ^ 50 * N <= T + 1) by nia.
    nia. }
  assert (Hfl : forall c, 0 <= c <= 1 ->
            Zpos M / 2 ^ (- (e2 + c)) = 2 ^ c * (Zpos M * 2 ^ (e2 + j)) / N).
  { intros c Hcc. unfold N.
    replace (2 ^ j) with (2 ^ (- (e2 + c)) * (2 ^ c * 2 ^ (e2 + j))).
    2:{ rewrite <- !Z.pow_add_r by lia. f_equal. lia. }
    replace (2 ^ c * (Zpos M * 2 ^ (e2 + j)))
      with (Zpos M * (2 ^ c * 2 ^ (e2 + j))) by ring.
    symmetry. apply Z.div_mul_cancel_r; [apply Z.pow_nonzero; lia|].
    apply Z.neq_mul_0. split; apply Z.pow_nonzero; lia. }
  set (k := Zpos a / Zpos b). set (k2 := 2 * Zpos a / Zpos b).
  pose proof (Z.div_mod (Zpos a) (Zpos b)) as Dk.
  pose proof (Z.mod_pos_bound (Zpos a) (Zpos b)) as Mk.
  pose proof (Z.div_mod (2 * Zpos a) (Zpos b)) as Dk2.
  pose proof (Z.mod_pos_bound (2 * Zpos a) (Zpos b)) as Mk2.
  fold k in Dk. fold k2 in Dk2.
  assert (HNe : N = 2 * 2 ^ (j - 1))
    by (unfold N; rewrite <- Z.pow_succ_r by (unfold j; lia); f_equal; lia).
  assert (HN' : 0 < 2 ^ (j - 1)) by (apply Z.pow_pos_nonneg; unfold j; lia).
  split.
  - rewrite floor_fraction by lia. f_equal.
    replace (- e2) with (- (e2 + 0)) by lia.
    rewrite (Hfl 0) by lia. change (2 ^ 0) with 1. rewrite Z.mul_1_l.
    apply div_between; [lia|].
    destruct Hv as [-> | ->]; nia.
  - change (JS.of_Z 2) with (S754_finite false 4503599627370496 (1 - 52)).
    destruct (mul_pow2 false M e2 1 Hc) as (_ & -> & _); [lia | |].
    { rewrite Hd. pose proof (canonic_bounds M e2 Hc).
      unfold SpecFloat.fexp, emin, JS.prec, JS.emax. lia. }
    rewrite Hd.
    replace (fexp (53 + (e2 + 1))) with (e2 + 1)
      by (pose proof (canonic_bounds M e2 Hc);
          unfold SpecFloat.fexp, emin, JS.prec, JS.emax; lia).
    replace (e2 + 1 - (e2 + 1)) with 0 by lia. simpl shl.
    rewrite floor_fraction by lia. f_equal.
    rewrite (Hfl 1) by lia. change (2 ^ 1) with 2.
    apply div_between; [lia|].
    assert (k2 * 2 ^ (j - 1) <= T).
    { unfold T. apply Z.div_le_lower_bound; [lia|]. fold N. nia. }
    destruct Hv as [-> | ->]; nia.
Qed.

End Binary64_division.

(** * The windows of the main menu *)

Section Layout.

Variables command gold status : MenuLayout.Rectangle.

(** X8: for a box width [w] from 0 to below [2^50], the play time, gold
    and step count windows lie side by side on the bottom row, 72 pixels
    high and each of width [w / 3] cut to a whole number: they start at 0,
    [w / 3] and [2 * w / 3], never overlap, stay inside the box, and leave
    out at most one pixel between the last two and one at the right. *)
Theorem bottom_row_side_by_side (w h : Z) :
  0 <= w < 2 ^ 50 -> Z.abs h < 2 ^ 52 ->
  let ws := MenuLayout.Scene_Menu_create (JS.of_Z w) (JS.of_Z h) command gold status in
  MenuLayout._playTimeWindow ws
  = {| MenuLayout.x := JS.of_Z 0; MenuLayout.y := JS.of_Z (h - 72);
       MenuLayout.width := JS.of_Z (w / 3); MenuLayout.height := JS.of_Z 72 |}
  /\ MenuLayout._goldWindow ws
     = {| MenuLayout.x := JS.of_Z (w / 3); MenuLayout.y := JS.of_Z (h - 72);
          MenuLayout.width := JS.of_Z (w / 3); MenuLayout.height := JS.of_Z 72 |}
  /\ MenuLayout._stepCountWindow ws
     = {| MenuLayout.x := JS.of_Z (2 * w / 3); MenuLayout.y := JS.of_Z (h - 72);
          MenuLayout.width := JS.of_Z (w / 3); MenuLayout.height := JS.of_Z 72 |}
  /\ w / 3 + w / 3 <= 2 * w / 3 <= w / 3 + w / 3 + 1
  /\ w - 1 <= 2 * w / 3 + w / 3 <= w.
Proof.
  intros Hw Hh. cbv zeta.
  destruct (floor_div_of_Z w 3) as [E1 E2]; [lia | lia |].
  assert (E3 : JS.sub (JS.of_Z h) (JS.of_Z 72) = JS.of_Z (h - 72))
    by (apply sub_of_Z; unfold safe; lia).
  unfold MenuLayout.Scene_Menu_create, MenuLayout.Window_Gold_initialize,
    MenuLayout.createPlayTimeWindow, MenuLayout.createStepCountWindow,
    MenuLayout.set_x, MenuLayout.set_y, MenuLayout.set_width, MenuLayout.set_height.
  cbn [MenuLayout._playTimeWindow MenuLayout._goldWindow MenuLayout._stepCountWindow
       MenuLayout.x MenuLayout.y MenuLayout.width MenuLayout.height].
  rewrite E1, E2, E3.
  pose proof (Z.div_mod w 3). pose proof (Z.mod_pos_bound w 3).
  pose proof (Z.div_mod (2 * w) 3). pose proof (Z.mod_pos_bound (2 * w) 3).
  repeat split; try reflexivity; lia.
Qed.

(** X9: for a box of [w] by [h] pixels, the status window, [w - 240]
    wide, and the command window, 240 wide, fill the width exactly, and the
    rows stack exactly: the middle row starts 72 pixels down and ends where
    the bottom row starts, 72 pixels above the bottom of the box; whatever
    rectangles the engine made the windows with. *)
Theorem middle_row_fills_the_box (w h : Z) :
  Z.abs w < 2 ^ 52 -> Z.abs h < 2 ^ 52 ->
  let ws := MenuLayout.Scene_Menu_create (JS.of_Z w) (JS.of_Z h) command gold status in
  let s := MenuLayout._statusWindow ws in
  let c := MenuLayout._commandWindow ws in
  let b := MenuLayout._playTimeWindow ws in
  s = {| MenuLayout.x := JS.of_Z 0; MenuLayout.y := JS.of_Z 72;
         MenuLayout.width := JS.of_Z (w - 240);
         MenuLayout.height := JS.of_Z (h - 144) |}
  /\ c = {| MenuLayout.x := JS.of_Z (w - 240); MenuLayout.y := JS.of_Z 72;
            MenuLayout.width := JS.of_Z 240;
            MenuLayout.height := JS.of_Z (h - 144) |}
  /\ JS.add (MenuLayout.x s) (MenuLayout.width s) = MenuLayout.x c
  /\ JS.add (MenuLayout.x c) (MenuLayout.width c) = JS.of_Z w
  /\ JS.add (MenuLayout.y s) (MenuLayout.height s) = MenuLayout.y b
  /\ JS.add (MenuLayout.y b) (MenuLayout.height b) = JS.of_Z h.
Proof.
  intros Hw Hh. cbv zeta.
  assert (E1 : JS.sub (JS.of_Z w) (JS.of_Z 240) = JS.of_Z (w - 240))
    by (apply sub_of_Z; unfold safe; lia).
  assert (E2 : JS.sub (JS.of_Z h) (JS.of_Z 72) = JS.of_Z (h - 72))
    by (apply sub_of_Z; unfold safe; lia).
  assert (E3 : JS.sub (JS.of_Z (h - 72)) (JS.of_Z 72) = JS.of_Z (h - 144))
    by (replace (h - 144) with (h - 72 - 72) by lia;
        apply sub_of_Z; unfold safe; lia).
  unfold MenuLayout.Scene_Menu_create, MenuLayout.Window_Gold_initialize,
    MenuLayout.createPlayTimeWindow, MenuLayout.createStepCountWindow,
    MenuLayout.set_x, MenuLayout.set_y, MenuLayout.set_width, MenuLayout.set_height.
  cbn [MenuLayout._playTimeWindow MenuLayout._statusWindow MenuLayout._commandWindow
       MenuLayout.x MenuLayout.y MenuLayout.width MenuLayout.height].
  rewrite E1, E2, E3.
  split; [reflexivity|]. split; [reflexivity|].
  rewrite !add_of_Z by (unfold safe; lia).
  repeat split; f_equal; lia.
Qed.

End Layout.

Lemma bottom_row_side_by_side_witness :
  let r := MenuLayout.createPlayTimeWindow JS.NaN JS.NaN in
  let ws := MenuLayout.Scene_Menu_create (JS.of_Z 808) (JS.of_Z 616) r r r in
  MenuLayout._playTimeWindow ws
  = {| MenuLayout.x := JS.of_Z 0; MenuLayout.y := JS.of_Z (616 - 72);
       MenuLayout.width := JS.of_Z (808 / 3); MenuLayout.height := JS.of_Z 72 |}
  /\ MenuLayout._goldWindow ws
     = {| MenuLayout.x := JS.of_Z (808 / 3); MenuLayout.y := JS.of_Z (616 - 72);
          MenuLayout.width := JS.of_Z (808 / 3); MenuLayout.height := JS.of_Z 72 |}
  /\ MenuLayout._stepCountWindow ws
     = {| MenuLayout.x := JS.of_Z (2 * 808 / 3); MenuLayout.y := JS.of_Z (616 - 72);
          MenuLayout.width := JS.of_Z (808 / 3); MenuLayout.height := JS.of_Z 72 |}
  /\ 808 / 3 + 808 / 3 <= 2 * 808 / 3 <= 808 / 3 + 808 / 3 + 1
  /\ 808 - 1 <= 2 * 808 / 3 + 808 / 3 <= 808.
Proof.
  apply (bottom_row_side_by_side
           (MenuLayout.createPlayTimeWindow JS.NaN JS.NaN)
           (MenuLayout.createPlayTimeWindow JS.NaN JS.NaN)
           (MenuLayout.createPlayTimeWindow JS.NaN JS.NaN) 808 616); lia.
Defined.

Lemma middle_row_fills_the_box_witness :
  let r := MenuLayout.createPlayTimeWindow JS.NaN JS.NaN in
  let ws := MenuLayout.Scene_Menu_create (JS.of_Z 808) (JS.of_Z 616) r r r in
  let s := MenuLayout._statusWindow ws in
  let c := MenuLayout._commandWindow ws in
  let b := MenuLayout._playTimeWindow ws in
  s = {| MenuLayout.x := JS.of_Z 0; MenuLayout.y := JS.of_Z 72;
         MenuLayout.width := JS.of_Z (808 - 240);
         MenuLayout.height := JS.of_Z (616 - 144) |}
  /\ c = {| MenuLayout.x := JS.of_Z (808 - 240); MenuLayout.y := JS.of_Z 72;
            MenuLayout.width := JS.of_Z 240;
            MenuLayout.height := JS.of_Z (616 - 144) |}
  /\ JS.add (MenuLayout.x s) (MenuLayout.width s) = MenuLayout.x c
  /\ JS.add (MenuLayout.x c) (MenuLayout.width c) = JS.of_Z 808
  /\ JS.add (MenuLayout.y s) (MenuLayout.height s) = MenuLayout.y b
  /\ JS.add (MenuLayout.y b) (MenuLayout.height b) = JS.of_Z 616.
Proof.
  apply (middle_row_fills_the_box
           (MenuLayout.createPlayTimeWindow JS.NaN JS.NaN)
           (MenuLayout.createPlayTimeWindow JS.NaN JS.NaN)
           (MenuLayout.createPlayTimeWindow JS.NaN JS.NaN) 808 616); lia.
Defined.

(** * Outside the menus *)

Lemma changeScene_outside (parameters : gmap string string) c st :
  extends_Scene_MenuBase (_scene st) = false ->
  extends_Scene_MenuBase c = false ->
  changeScene parameters c st = log (Activated c) (set_scene c st).
Proof.
  intros Hs Hc. unfold changeScene, terminate, Scene_Map_terminate.
  rewrite Hs. simpl instanceof_Scene_MenuBase. rewrite Hc.
  assert (E : (match _scene st with Scene_Map => st | _ => st end) = st)
    by now destruct (_scene st).
  rewrite E. destruct c; try reflexivity. discriminate Hc.
Qed.

(** X10: between scenes that are no menu scenes - title, map, battle - the
    plugin calls nothing of the audio device, not even the capture, and
    keeps the snapshot, the flag and the playing track as they are. *)
Theorem outside_the_menus_audio_is_left_alone
    (parameters : gmap string string) (cs : list SceneClass) (st : State) :
  extends_Scene_MenuBase (_scene st) = false ->
  forallb (fun c => negb (extends_Scene_MenuBase c)) cs = true ->
  let st' := changeScenes parameters cs st in
  trace st' = trace st ++ List.map Activated cs
  /\ _currentBgm st' = _currentBgm st
  /\ _currentMapBgm st' = _currentMapBgm st
  /\ _menuMusicActive st' = _menuMusicActive st.
Proof.
  revert st. induction cs as [|c cs IH]; intros st Hs Hcs; cbv zeta.
  - simpl. now rewrite app_nil_r.
  - simpl in Hcs. apply andb_prop in Hcs as [Hc Hcs].
    apply negb_true_iff in Hc.
    rewrite changeScenes_cons, changeScene_outside by assumption.
    destruct (IH (log (Activated c) (set_scene c st))) as (H1 & H2 & H3 & H4);
      [assumption | assumption |].
    rewrite H1, H2, H3, H4. simpl. now rewrite <- app_assoc.
Qed.

Lemma outside_the_menus_audio_is_left_alone_witness :
  let st := changeScene theme1 Scene_Title
              (changeScene theme1 Scene_Menu (on_map None)) in
  let st' := changeScenes theme1 [Scene_Map; Scene_Battle; Scene_Map] st in
  trace st' = trace st ++ List.map Activated [Scene_Map; Scene_Battle; Scene_Map]
  /\ _currentBgm st' = _currentBgm st
  /\ _currentMapBgm st' = _currentMapBgm st
  /\ _menuMusicActive st' = _menuMusicActive st.
Proof.
  apply (outside_the_menus_audio_is_left_alone theme1
           [Scene_Map; Scene_Battle; Scene_Map]
           (changeScene theme1 Scene_Title
              (changeScene theme1 Scene_Menu (on_map None)))); reflexivity.
Defined.

(** X11: without a background image the menu scenes get the plain sprite
    of the engine, and the two speeds have no effect: no frame changes the
    sprite. *)
Theorem no_image_no_scroll (parameters : gmap string string) (n : nat) :
  backgroundImage parameters = "" ->
  Scene_MenuBase_createBackground parameters = PlainSprite
  /\ frames parameters n (Scene_MenuBase_createBackground parameters) = PlainSprite.
Proof.
  intros Hb. unfold Scene_MenuBase_createBackground. rewrite Hb.
  split; [reflexivity|].
  change (JS.truthy_string "") with false. cbv iota.
  induction n as [|n IH]; simpl; [reflexivity|]. now rewrite IH.
Qed.

Lemma no_image_no_scroll_witness :
  Scene_MenuBase_createBackground {[ "parallaxHorizontalSpeed" := "5" ]} = PlainSprite
  /\ frames {[ "parallaxHorizontalSpeed" := "5" ]} 60
       (Scene_MenuBase_createBackground {[ "parallaxHorizontalSpeed" := "5" ]})
     = PlainSprite.
Proof.
  apply (no_image_no_scroll {[ "parallaxHorizontalSpeed" := "5" ]} 60).
  reflexivity.
Defined.

(** * The order of the movement patches *)

Section Patches.

Variable World : Type.
Variable value : JS.number -> World -> bool.
Variables isMoving canMove : World -> bool.
Variable getInputDirection : World -> JS.number.
Variable clearDestination : World -> World.
Variable executeMove : JS.number -> World -> World.

Local Abbreviation StopMovement := (Movement.StopMovement World value).
Local Abbreviation ReverieHouse :=
  (Movement.ReverieHouse World isMoving canMove getInputDirection
     clearDestination executeMove).


End Patches.


(** * Products and [Math.floor] *)

Section Binary64_products.

Local Abbreviation fexp := (SpecFloat.fexp JS.prec JS.emax).

Lemma shr_iter_div p mrs :
  0 <= shr_m mrs ->
  shr_m (SpecFloat.iter_pos shr_1 p mrs) = shr_m mrs / 2 ^ Zpos p.
Proof.
  intros Hm. rewrite iter_pos_iter.
  induction p as [|p IH] using Pos.peano_ind.
  - simpl Pos.iter. rewrite shr_1_half by assumption. reflexivity.
  - rewrite Pos.iter_succ, shr_1_half.
    + rewrite IH, Z.div_div by (try apply Z.pow_pos_nonneg; lia).
      rewrite Pos2Z.inj_succ, Z.pow_succ_r by lia. f_equal. lia.
    + rewrite IH. apply Z.div_pos; [assumption|]. apply Z.pow_pos_nonneg; lia.
Qed.

(** Rounding a mantissa that is cut by [p >= 0] digits: the result is
    canonical, and it is the cut mantissa, or one more. *)
Lemma round_bracket_gen s q e l :
  let e1 := fexp (Zpos (digits2_pos q) + e) in
  let p := e1 - e in
  0 <= p -> e1 + 1 <= 971 -> 1 <= Zpos q / 2 ^ p ->
  exists M e2,
    binary_round_aux JS.prec JS.emax s (Zpos q) e l = S754_finite s M e2
    /\ canonic M e2
    /\ e1 <= e2
    /\ (Zpos M * 2 ^ (e2 - e1) = Zpos q / 2 ^ p
        \/ Zpos M * 2 ^ (e2 - e1) = Zpos q / 2 ^ p + 1).
Proof.
  intros e1 p Hp H2 H1. rewrite round_aux_finish.
  pose proof (digits2_bounds q) as [Hl Hu].
  assert (He1 : -1074 <= e1 /\ Zpos (digits2_pos q) + e - 53 <= e1
                /\ (e1 = -1074 \/ e1 = Zpos (digits2_pos q) + e - 53))
    by (unfold e1, SpecFloat.fexp, emin, JS.prec, JS.emax; lia).
  assert (Hs : shr_fexp JS.prec JS.emax (Zpos q) e l
               = shr (shr_record_of_loc (Zpos q) l) e p) by reflexivity.
  rewrite Hs.
  set (mrs := fst (shr (shr_record_of_loc (Zpos q) l) e p)).
  assert (HT : shr_m mrs = Zpos q / 2 ^ p
               /\ snd (shr (shr_record_of_loc (Zpos q) l) e p) = e1).
  { unfold mrs. destruct p as [|pp|pp] eqn:Epp; try lia.
    - simpl. rewrite shr_m_of_loc, Z.div_1_r. split; [reflexivity|lia].
    - simpl. rewrite shr_iter_div by (rewrite shr_m_of_loc; lia).
      rewrite shr_m_of_loc. split; [reflexivity|lia]. }
  destruct HT as [HT ->].
  set (T := Zpos q / 2 ^ p) in *.
  assert (Hpow : 0 < 2 ^ p) by (apply Z.pow_pos_nonneg; lia).
  assert (HTu : T < 2 ^ 53).
  { unfold T. apply Z.div_lt_upper_bound; [assumption|].
    assert (2 ^ Zpos (digits2_pos q) <= 2 ^ (p + 53))
      by (apply Z.pow_le_mono_r; unfold p; lia).
    rewrite Z.pow_add_r in H by lia. lia. }
  assert (HTl : e1 = -1074 \/ 2 ^ 52 <= T).
  { destruct He1 as (_ & _ & [E|E]); [now left|right].
    unfold T. apply Z.div_le_lower_bound; [assumption|].
    rewrite Z.mul_comm, <- Z.pow_add_r by lia.
    replace (52 + p) with (Zpos (digits2_pos q) - 1) by (unfold p; lia).
    assumption. }
  assert (Hcan : forall t, 1 <= Zpos t < 2 ^ 53 ->
                   (e1 = -1074 \/ 2 ^ 52 <= Zpos t) -> canonic t e1).
  { intros t Ht Hc. split; [|unfold JS.prec, JS.emax; lia].
    pose proof (safe_digits t (proj2 Ht)) as Hdt.
    destruct Hc as [E|E].
    - unfold SpecFloat.fexp, emin, JS.prec, JS.emax. lia.
    - assert (Zpos (digits2_pos t) = 53)
        by (apply digits2_unique; change (53 - 1) with 52; lia).
      unfold SpecFloat.fexp, emin, JS.prec, JS.emax. lia. }
  destruct (round_nearest_even_bracket (shr_m mrs) (loc_of_shr_record mrs))
    as [E|E]; rewrite E, HT.
  - destruct T as [|t|t] eqn:ET; try lia.
    exists t, e1. rewrite finish_canonic by (apply Hcan; lia).
    split; [reflexivity|]. split; [apply Hcan; lia|]. split; [lia|].
    left. rewrite Z.sub_diag. lia.
  - destruct (Z.eq_dec (T + 1) (2 ^ 53)) as [Ec|Ec].
    + rewrite Ec, finish_carry by lia.
      exists 4503599627370496%positive, (e1 + 1).
      split; [reflexivity|]. split; [|split; [lia|]].
      * split; [|unfold JS.prec, JS.emax; lia].
        unfold SpecFloat.fexp, emin, JS.prec, JS.emax. simpl digits2_pos. lia.
      * right. replace (e1 + 1 - e1) with 1 by lia. reflexivity.
    + destruct (T + 1) as [|t|t] eqn:ET; try lia.
      exists t, e1. rewrite finish_canonic by (apply Hcan; lia).
      split; [reflexivity|]. split; [apply Hcan; lia|]. split; [lia|].
      right. rewrite Z.sub_diag. lia.
Qed.

Lemma mant_bounds w :
  Zpos w < 2 ^ 53 -> 2 ^ 52 <= Zpos (mant w) < 2 ^ 53.
Proof.
  intros H. pose proof (safe_digits w H) as Hd.
  pose proof (digits2_bounds w) as [Hl Hu].
  rewrite (mant_Z w H). unfold expo.
  assert (Hp : 0 < 2 ^ (- (Zpos (digits2_pos w) - 53)))
    by (apply Z.pow_pos_nonneg; lia).
  split.
  - replace (2 ^ 52)
      with (2 ^ (Zpos (digits2_pos w) - 1) * 2 ^ (- (Zpos (digits2_pos w) - 53))).
    + apply Z.mul_le_mono_nonneg_r; lia.
    + rewrite <- Z.pow_add_r by lia. f_equal. lia.
  - replace (2 ^ 53)
      with (2 ^ Zpos (digits2_pos w) * 2 ^ (- (Zpos (digits2_pos w) - 53))).
    + apply Z.mul_lt_mono_pos_r; lia.
    + rewrite <- Z.pow_add_r by lia. f_equal. lia.
Qed.

(** A fraction is [+0], [1], or a canonical number below one. *)
Lemma fraction_cases r :
  fraction r = true ->
  r = S754_zero false \/ r = JS.of_Z 1
  \/ exists m e, r = S754_finite false m e /\ canonic m e /\ e <= -53.
Proof.
  destruct r as [[|]|s| |[|] m e];
    try (intros H; discriminate H).
  - now left.
  - unfold fraction. intros H. apply andb_prop in H as [Hv Hle].
    unfold valid_binary, bounded, canonical_mantissa in Hv.
    apply andb_prop in Hv as [Hc Hb].
    apply Z.eqb_eq in Hc. apply Z.leb_le in Hb.
    assert (Hcan : canonic m e) by (split; assumption).
    pose proof (canonic_bounds m e Hcan) as [Hd He].
    unfold SFleb in Hle.
    change (JS.of_Z 1) with (S754_finite false 4503599627370496 (-52)) in Hle.
    unfold SFcompare in Hle.
    destruct (Z.compare_spec e (-52)) as [E|E|E]; [| | discriminate Hle].
    + rewrite Pos.compare_cont_spec in Hle.
      destruct (Pos.compare_spec m 4503599627370496) as [Hm|Hm|Hm];
        try discriminate Hle.
      * right; left. subst m e. reflexivity.
      * exfalso.
        assert (Zpos (digits2_pos m) <= 52).
        { apply Pos2Z.pos_lt_pos in Hm. clear - Hm.
          pose proof (digits2_bounds m) as [Hl _].
          destruct (Z.le_gt_cases (Zpos (digits2_pos m)) 52) as [|Hgt]; [assumption|].
          assert (2 ^ 52 <= 2 ^ (Zpos (digits2_pos m) - 1))
            by (apply Z.pow_le_mono_r; lia).
          change (2 ^ 52) with 4503599627370496 in *. lia. }
        clear Hle Hm. unfold SpecFloat.fexp, emin, JS.prec, JS.emax in Hc. lia.
    + right; right. exists m, e. clear Hle. repeat split; try apply Hcan. lia.
Qed.

(** [Math.floor(W * r)] is a whole number from 0 to [W] when [W] is a
    positive integer and [0 <= r <= 1]. *)
Lemma floor_scaled W r :
  0 < W < 2 ^ 52 -> fraction r = true ->
  exists k, 0 <= k <= W /\ JS.floor (JS.mul (JS.of_Z W) r) = JS.of_Z k.
Proof.
  intros HW Hr. destruct W as [|w|w]; try lia.
  assert (Hw : Zpos w < 2 ^ 53) by lia.
  pose proof (mant_Z w Hw) as HmZ. pose proof (mant_bounds w Hw) as Hmb.
  pose proof (digits2_bounds w) as [Hwl Hwu].
  assert (Hxw : -52 <= expo w <= -1).
  { unfold expo. split; [lia|].
    destruct (Z.le_gt_cases (Zpos (digits2_pos w)) 52) as [|Hgt]; [lia|].
    assert (2 ^ 52 <= 2 ^ (Zpos (digits2_pos w) - 1))
      by (apply Z.pow_le_mono_r; lia).
    lia. }
  assert (HA : 0 < 2 ^ (- expo w)) by (apply Z.pow_pos_nonneg; lia).
  assert (Hfw : JS.floor (S754_finite false (mant w) (expo w)) = JS.of_Z (Zpos w)).
  { rewrite floor_fraction by lia. rewrite HmZ, Z.div_mul by lia. reflexivity. }
  destruct (fraction_cases r Hr) as [->|[->|(m & e & -> & Hcan & He)]]; clear Hr.
  - exists 0. rewrite of_Z_pos by assumption. split; [lia|reflexivity].
  - exists (Zpos w). split; [lia|].
    rewrite mul_of_Z_nonneg; unfold safe; rewrite ?Z.mul_1_r; try lia.
    rewrite (of_Z_pos w) at 1 by assumption. exact Hfw.
  - rewrite of_Z_pos by assumption.
    pose proof (canonic_bounds m e Hcan) as [Hdm Hem].
    pose proof (digits2_bounds m) as [_ Hmu].
    assert (Hm1 : Zpos m < 2 ^ (- e)).
    { assert (2 ^ Zpos (digits2_pos m) <= 2 ^ (- e))
        by (apply Z.pow_le_mono_r; lia). lia. }
    unfold JS.mul, SFmul. simpl xorb.
    set (q := (mant w * m)%positive). set (eq := expo w + e).
    assert (HQ : Zpos q = Zpos w * 2 ^ (- expo w) * Zpos m)
      by (unfold q; rewrite Pos2Z.inj_mul, HmZ; reflexivity).
    pose proof (digits2_bounds q) as [Hql Hqu].
    assert (HQu : Zpos q < Zpos w * 2 ^ (- eq)).
    { unfold eq. replace (- (expo w + e)) with (- expo w + - e) by lia.
      rewrite Z.pow_add_r, HQ by lia.
      rewrite <- Z.mul_assoc.
      apply Z.mul_lt_mono_pos_l; [lia|].
      apply Z.mul_lt_mono_pos_l; lia. }
    assert (HQl : 2 ^ 52 <= Zpos q /\ 2 ^ (- expo w) <= Zpos q).
    { unfold q. rewrite Pos2Z.inj_mul. split; [nia|]. rewrite HmZ. nia. }
    assert (Hdq : 53 <= Zpos (digits2_pos q) /\ Zpos (digits2_pos q) + eq <= 52).
    { split.
      - destruct (Z.le_gt_cases 53 (Zpos (digits2_pos q))) as [|Hgt]; [assumption|].
        assert (2 ^ Zpos (digits2_pos q) <= 2 ^ 52)
          by (apply Z.pow_le_mono_r; lia).
        lia.
      - destruct (Z.le_gt_cases (Zpos (digits2_pos q) + eq) 52) as [|Hgt];
          [assumption|].
        assert (2 ^ (52 - eq) <= 2 ^ (Zpos (digits2_pos q) - 1))
          by (apply Z.pow_le_mono_r; unfold eq in *; lia).
        assert (Zpos w * 2 ^ (- eq) < 2 ^ 52 * 2 ^ (- eq)).
        { apply Z.mul_lt_mono_pos_r; [|lia].
          apply Z.pow_pos_nonneg; unfold eq; lia. }
        rewrite <- Z.pow_add_r in H0 by (unfold eq; lia).
        replace (52 + - eq) with (52 - eq) in H0 by lia. lia. }
    destruct Hdq as [Hdq1 Hdq2].
    set (e1 := fexp (Zpos (digits2_pos q) + eq)).
    assert (He1 : -1074 <= e1 <= -1 /\ eq <= e1
                  /\ (e1 = -1074 \/ e1 = Zpos (digits2_pos q) + eq - 53))
      by (unfold e1, SpecFloat.fexp, emin, JS.prec, JS.emax; lia).
    assert (H2p : 2 ^ (e1 - eq) <= Zpos q).
    { destruct He1 as (_ & _ & [E|E]).
      - assert (2 ^ (e1 - eq) <= 2 ^ (- expo w))
          by (apply Z.pow_le_mono_r; unfold eq; lia).
        lia.
      - assert (2 ^ (e1 - eq) <= 2 ^ (Zpos (digits2_pos q) - 1))
          by (apply Z.pow_le_mono_r; lia).
        lia. }
    assert (Hpp : 0 < 2 ^ (e1 - eq)) by (apply Z.pow_pos_nonneg; lia).
    destruct (round_bracket_gen false q eq loc_Exact) as (M & e2 & -> & HcM & He2 & HV);
      fold e1; try lia.
    { apply Z.div_le_lower_bound; lia. }
    fold e1 in He2, HV.
    set (T := Zpos q / 2 ^ (e1 - eq)) in *.
    assert (HT : T + 1 <= Zpos w * 2 ^ (- e1)).
    { assert (T < Zpos w * 2 ^ (- e1)); [|lia].
      apply Z.div_lt_upper_bound; [assumption|].
      replace (2 ^ (e1 - eq) * (Zpos w * 2 ^ (- e1))) with (Zpos w * 2 ^ (- eq));
        [assumption|].
      replace (- eq) with (- e1 + (e1 - eq)) by lia.
      rewrite Z.pow_add_r by lia. ring. }
    assert (HVu : Zpos M * 2 ^ (e2 - e1) <= Zpos w * 2 ^ (- e1)) by lia.
    clear HV HT.
    pose proof (canonic_bounds M e2 HcM) as [HdM HeM].
    assert (He2n : e2 < 0).
    { destruct (Z.lt_ge_cases e2 0) as [|Hge]; [assumption|exfalso].
      destruct HcM as [HcM _].
      unfold SpecFloat.fexp, emin, JS.prec, JS.emax in HcM.
      assert (Zpos (digits2_pos M) = 53) by lia.
      pose proof (digits2_bounds M) as [HMl _]. rewrite H in HMl.
      change (53 - 1) with 52 in HMl.
      assert (2 ^ (- e1) <= 2 ^ (e2 - e1)) by (apply Z.pow_le_mono_r; lia).
      assert (0 < 2 ^ (- e1)) by (apply Z.pow_pos_nonneg; lia).
      assert (2 ^ 52 * 2 ^ (- e1) <= Zpos M * 2 ^ (e2 - e1)).
      { apply Z.mul_le_mono_nonneg; lia. }
      assert (Zpos w * 2 ^ (- e1) < 2 ^ 52 * 2 ^ (- e1))
        by (apply Z.mul_lt_mono_pos_r; lia).
      lia. }
    rewrite floor_fraction by assumption.
    eexists. split; [|reflexivity].
    assert (0 < 2 ^ (- e2)) by (apply Z.pow_pos_nonneg; lia).
    split; [apply Z.div_pos; lia|].
    apply Z.div_le_upper_bound; [assumption|].
    assert (0 < 2 ^ (e2 - e1)) by (apply Z.pow_pos_nonneg; lia).
    apply (Z.mul_le_mono_pos_r _ _ (2 ^ (e2 - e1))); [assumption|].
    replace (2 ^ (- e2) * Zpos w * 2 ^ (e2 - e1)) with (Zpos w * 2 ^ (- e1));
      [assumption|].
    replace (- e1) with (- e2 + (e2 - e1)) by lia.
    rewrite Z.pow_add_r by lia. ring.
Qed.

End Binary64_products.

(** * The gauges of the status window *)

Lemma drawActorGauge_whole lh x y r :
  0 < lh < 2 ^ 40 -> Z.abs x < 2 ^ 42 -> Z.abs y < 2 ^ 42 ->
  fraction r = true ->
  let g := MenuStatus.drawActorGauge (JS.of_Z lh) (JS.of_Z y) (JS.of_Z 100)
             (JS.of_Z x) r in
  MenuStatus.gx g = JS.of_Z x
  /\ MenuStatus.gy g = JS.of_Z (y + lh - 8)
  /\ MenuStatus.gwidth g = JS.of_Z 100
  /\ MenuStatus.gheight g = JS.of_Z 6
  /\ exists k, 0 <= k <= 100 /\ MenuStatus.fillW g = JS.of_Z k.
Proof.
  intros Hlh Hx Hy Hr g. unfold g, MenuStatus.drawActorGauge, MenuStatus.drawGauge.
  change (JS.or_number (JS.of_Z 100) (JS.of_Z 100)) with (JS.of_Z 100).
  cbn [MenuStatus.gx MenuStatus.gy MenuStatus.gwidth MenuStatus.gheight
       MenuStatus.fillW].
  rewrite add_of_Z, sub_of_Z by (unfold safe; lia).
  repeat split. apply floor_scaled; [lia | assumption].
Qed.

(** X13: the gauges of an actor of the status window, for an item whose
    corner has whole coordinates and rates from 0 to 1: each gauge starts
    187 pixels right of the corner, 8 pixels above the bottom of its own
    line, is 100 wide and 6 high, and its filled part is a whole number
    of pixels from 0 to 100, so it never leaves the back of the gauge.
    The third gauge is drawn only when TP are displayed. *)
Theorem gauges_fill_within_their_back lh x y hp mp tp optDisplayTp :
  0 < lh < 2 ^ 40 -> Z.abs x < 2 ^ 40 -> Z.abs y < 2 ^ 40 ->
  fraction hp = true -> fraction mp = true -> fraction tp = true ->
  let gauges := MenuStatus.drawItemStatus (JS.of_Z lh) (JS.of_Z x) (JS.of_Z y)
                  hp mp tp optDisplayTp in
  length gauges = (if optDisplayTp then 3 else 2)%nat
  /\ forall i g, nth_error gauges i = Some g ->
       MenuStatus.gx g = JS.of_Z (x + 187)
       /\ MenuStatus.gy g = JS.of_Z (y + Z.of_nat i * lh + lh - 8)
       /\ MenuStatus.gwidth g = JS.of_Z 100
       /\ MenuStatus.gheight g = JS.of_Z 6
       /\ exists k, 0 <= k <= 100 /\ MenuStatus.fillW g = JS.of_Z k.
Proof.
  intros Hlh Hx Hy Hhp Hmp Htp gauges. unfold gauges, MenuStatus.drawItemStatus.
  rewrite !add_of_Z by (unfold safe; lia).
  replace (x + 151 + 36) with (x + 187) by lia.
  assert (E0 : JS.mul (JS.of_Z lh) (JS.of_Z 0) = JS.of_Z 0).
  { destruct (of_Z_finite lh) as (k & _ & ->); [unfold safe; lia | lia |].
    replace (lh <? 0) with false by (symmetry; apply Z.ltb_ge; lia).
    reflexivity. }
  rewrite E0, !mul_of_Z by (unfold safe; lia).
  rewrite !add_of_Z by (unfold safe; lia).
  split; [now destruct optDisplayTp|].
  intros i g Hg.
  destruct i as [|[|[|i]]]; cbn [nth_error app] in Hg.
  - injection Hg as <-.
    replace (y + Z.of_nat 0 * lh) with (y + 0) by lia.
    apply drawActorGauge_whole; try assumption; lia.
  - injection Hg as <-.
    replace (y + Z.of_nat 1 * lh) with (y + lh * 1) by lia.
    apply drawActorGauge_whole; try assumption; lia.
  - destruct optDisplayTp; cbn [nth_error] in Hg; [|discriminate Hg].
    injection Hg as <-.
    replace (y + Z.of_nat 2 * lh) with (y + lh * 2) by lia.
    apply drawActorGauge_whole; try assumption; lia.
  - destruct optDisplayTp; cbn [nth_error] in Hg; [|discriminate Hg].
    destruct i; discriminate Hg.
Qed.

Lemma gauges_fill_within_their_back_witness :
  let gauges := MenuStatus.drawItemStatus (JS.of_Z 36) (JS.of_Z 0) (JS.of_Z 112)
                  (S754_finite false 4503599627370496 (-53)) (JS.of_Z 1)
                  (S754_zero false) true in
  length gauges = 3%nat
  /\ forall i g, nth_error gauges i = Some g ->
       MenuStatus.gx g = JS.of_Z (0 + 187)
       /\ MenuStatus.gy g = JS.of_Z (112 + Z.of_nat i * 36 + 36 - 8)
       /\ MenuStatus.gwidth g = JS.of_Z 100
       /\ MenuStatus.gheight g = JS.of_Z 6
       /\ exists k, 0 <= k <= 100 /\ MenuStatus.fillW g = JS.of_Z k.
Proof.
  apply (gauges_fill_within_their_back 36 0 112
           (S754_finite false 4503599627370496 (-53)) (JS.of_Z 1)
           (S754_zero false) true);
    try reflexivity; lia.
Defined.
